(** * dYdX Perpetual client: transaction engine and event-log decoder

    A shallow embedding of the TypeScript sources
      - [src/lib/types.ts]: enums, option records, [Balance], [BaseValue];
      - the [Contracts] class, second half of [src/Perpetual.ts]:
        [send], [_send], [estimateGas], the gas accounting (the line numbers
        quoted below are those of that file);
      - the [Logs] class: [parseLogs], [parseLog], [parseValue] and the
        packed structs;
    followed by the properties proved about them.

    Conventions of the embedding.
      - A JavaScript [number] that holds a gas amount or a counter is a [Z],
        an infinity or [NaN]; the gas multiplier is a binary64 value and the
        product [gasEstimate * gasMultiplier] is the IEEE-754 product,
        rounded to nearest even ([SpecFloat] of the Standard Library).
      - An optional field is an [option]; [None] is [undefined] (or [null]).
      - [throw] is the [Threw] / [Err] constructor of the result type.
      - An [async] body is a state machine: it is run up to its next [await],
        and resumed after the signal that settles the awaited promise.
      - The web3 [PromiEvent] is a list of registered listeners; the peer is the
        list of signals it will emit. [off()] without an event name removes
        no listener. *)

From Stdlib Require Import ZArith String Ascii List Bool Lia.
From Stdlib Require Import Sorted Permutation SpecFloat.
From stdpp Require Import base gmap strings list pretty.
Import ListNotations.

Open Scope string_scope.
Open Scope list_scope.
Open Scope Z_scope.

(* ===================================================================== *)
(** * JavaScript preliminaries *)
(* ===================================================================== *)

(** A JavaScript [number] used as an integer quantity: an integer, an
    infinity ([negative] is its sign) or [NaN]. *)
Inductive number : Type :=
  | Num (z : Z)
  | Infinity (negative : bool)
  | NaN.

(** Truthiness of an optional number: [undefined], [null], [0] and [NaN]
    are falsy. *)
Definition truthy (n : option number) : bool :=
  match n with
  | Some (Num z) => negb (z =? 0)
  | Some (Infinity _) => true
  | Some NaN => false
  | None => false
  end.

(** [a + b] on numbers, where [b] may be [undefined]:
    [x + undefined] and [x + NaN] are [NaN], and so is the sum of the two
    infinities. *)
Definition js_plus (a : number) (b : option number) : number :=
  match a, b with
  | Num x, Some (Num y) => Num (x + y)
  | Num _, Some (Infinity s) => Infinity s
  | Infinity s, Some (Num _) => Infinity s
  | Infinity s, Some (Infinity s') => if Bool.eqb s s' then Infinity s else NaN
  | _, _ => NaN
  end.

(** [a >= b] on numbers; a comparison with [NaN] or [undefined] is false. *)
Definition js_ge (a : number) (b : option number) : bool :=
  match a, b with
  | Num x, Some (Num y) => y <=? x
  | Num _, Some (Infinity s) => s
  | Infinity s, Some (Num _) => negb s
  | Infinity s, Some (Infinity s') => negb s || s'
  | _, _ => false
  end.

(** The binary64 values (IEEE-754 double precision) a [number] ranges over
    in an arithmetic operation: [spec_float] at precision 53 and maximal
    exponent 1024. [binary64_of_Z] is the value of an integer (the nearest
    one above 2^53) and [binary64_of_ratio n d] the one a decimal literal
    of value [n / d] is read as: [1.15] is [binary64_of_ratio 115 100]. *)
Definition binary64_of_Z (z : Z) : spec_float :=
  binary_normalize 53 1024 z 0 false.

Definition binary64_of_ratio (n d : Z) : spec_float :=
  SFdiv 53 1024 (binary64_of_Z n) (binary64_of_Z d).

(** [a * b] on binary64 values, rounded to nearest even. *)
Definition binary64_times (a b : spec_float) : spec_float := SFmul 53 1024 a b.

(** [Math.floor]. *)
Definition Math_floor (x : spec_float) : number :=
  match x with
  | S754_zero _ => Num 0
  | S754_infinity s => Infinity s
  | S754_nan => NaN
  | S754_finite s m e =>
      let v := if s then Z.neg m else Z.pos m in
      Num (if 0 <=? e then v * 2 ^ e else v / 2 ^ (- e))
  end.

(** [Math.floor(gasEstimate * gasMultiplier)]; the product with
    [undefined] is [NaN]. *)
Definition Math_floor_times (gasEstimate : Z) (gasMultiplier : option spec_float)
  : number :=
  match gasMultiplier with
  | Some m => Math_floor (binary64_times (binary64_of_Z gasEstimate) m)
  | None => NaN
  end.

(** The data attached by [estimateGas] to a failed estimation. *)
Record TransactionData : Type := mkTransactionData {
  td_from : option string;
  td_value : option number;
  td_data : string;
  td_to : option string
}.

(** An [Error] object: its message and the optional [transactionData]. *)
Record JsError : Type := mkJsError {
  message : string;
  transactionData : option TransactionData
}.

(** [new Error(msg)]. *)
Definition Error (msg : string) : JsError :=
  {| message := msg; transactionData := None |}.

(** The result of a call that may throw. *)
Inductive Result (A : Type) : Type :=
  | Ok (a : A)
  | Err (e : JsError).
Arguments Ok {A} a.
Arguments Err {A} e.

(** Sequencing of calls that may throw: [x ← r; k]. *)
#[global] Instance Result_bind : MBind Result :=
  fun A B (k : A -> Result B) (r : Result A) =>
    match r with
    | Ok a => k a
    | Err e => Err e
    end.

(** A promise: settled at most once by the language itself. *)
Inductive Promise (A : Type) : Type :=
  | PPending
  | PFulfilled (a : A)
  | PRejected (e : JsError).
Arguments PPending {A}.
Arguments PFulfilled {A} a.
Arguments PRejected {A} e.

(** The [resolve] and [reject] functions of [new Promise((resolve, reject) => ...)]:
    calling either on a settled promise does nothing. *)
Definition resolve {A : Type} (a : A) (p : Promise A) : Promise A :=
  match p with
  | PPending => PFulfilled a
  | _ => p
  end.

Definition reject {A : Type} (e : JsError) (p : Promise A) : Promise A :=
  match p with
  | PPending => PRejected e
  | _ => p
  end.

(** [String.prototype.toLowerCase] on ASCII text (addresses and hashes are
    hexadecimal ASCII). *)
Definition lower_ascii (c : ascii) : ascii :=
  let n := nat_of_ascii c in
  if ((65 <=? n)%nat && (n <=? 90)%nat)%bool then ascii_of_nat (n + 32) else c.

Fixpoint toLowerCase (s : string) : string :=
  match s with
  | EmptyString => EmptyString
  | String c r => String (lower_ascii c) (toLowerCase r)
  end.

(** [String.prototype.substr(start, length)]. *)
Fixpoint drop_str (n : nat) (s : string) : string :=
  match n, s with
  | O, _ => s
  | S n', String _ r => drop_str n' r
  | S _, EmptyString => EmptyString
  end.

Fixpoint take_str (n : nat) (s : string) : string :=
  match n, s with
  | S n', String c r => String c (take_str n' r)
  | _, _ => EmptyString
  end.

Definition substr (start len : nat) (s : string) : string :=
  take_str len (drop_str start s).

(* ===================================================================== *)
(** * [lib/types.ts] *)
(* ===================================================================== *)

(** [enum ConfirmationType]. *)
Inductive ConfirmationType : Type :=
  | Hash
  | Confirmed
  | Both
  | Simulate.

Definition ConfirmationType_value (ct : ConfirmationType) : Z :=
  match ct with
  | Hash => 0
  | Confirmed => 1
  | Both => 2
  | Simulate => 3
  end.

Definition ConfirmationType_eqb (a b : ConfirmationType) : bool :=
  ConfirmationType_value a =? ConfirmationType_value b.

(** The numeric members of [Object.values(ConfirmationType)]: the
    [ConfirmationType] a raw option value denotes, if any. *)
Definition ConfirmationType_of (raw : option Z) : option ConfirmationType :=
  match raw with
  | Some 0 => Some Hash
  | Some 1 => Some Confirmed
  | Some 2 => Some Both
  | Some 3 => Some Simulate
  | _ => None
  end.

(** [interface TxOptions]. *)
Record TxOptions : Type := mkTxOptions {
  tx_from : option string;
  tx_gasPrice : option number;
  tx_gas : option number;
  tx_value : option number
}.

(** [interface SendOptions extends TxOptions]: every field is optional. *)
Record SendOptions : Type := mkSendOptions {
  so_from : option string;
  so_gasPrice : option number;
  so_gas : option number;
  so_value : option number;
  confirmations : option number;
  confirmationType : option Z;
  gasMultiplier : option spec_float
}.

(** Object spread [{ ...a, ...b }]: a field present in [b] wins. *)
Definition spread_field {A : Type} (a b : option A) : option A :=
  match b with
  | Some _ => b
  | None => a
  end.

Definition spread (a b : SendOptions) : SendOptions :=
  {| so_from := spread_field (so_from a) (so_from b);
     so_gasPrice := spread_field (so_gasPrice a) (so_gasPrice b);
     so_gas := spread_field (so_gas a) (so_gas b);
     so_value := spread_field (so_value a) (so_value b);
     confirmations := spread_field (confirmations a) (confirmations b);
     confirmationType := spread_field (confirmationType a) (confirmationType b);
     gasMultiplier := spread_field (gasMultiplier a) (gasMultiplier b) |}.

(** The empty options object [{}]. *)
Definition no_options : SendOptions :=
  {| so_from := None; so_gasPrice := None; so_gas := None; so_value := None;
     confirmations := None; confirmationType := None; gasMultiplier := None |}.

(** A [BigNumber] holding an integer, or [NaN]. *)
Inductive BigNumber : Type :=
  | BN (z : Z)
  | BN_NaN.

Definition BN_negated (b : BigNumber) : BigNumber :=
  match b with
  | BN z => BN (- z)
  | BN_NaN => BN_NaN
  end.

Definition BN_isZero (b : BigNumber) : bool :=
  match b with
  | BN z => z =? 0
  | BN_NaN => false
  end.

(** [class Balance]: signed margin and position. *)
Record Balance : Type := mkBalance {
  margin : BigNumber;
  position : BigNumber
}.

(** [class BaseValue]: a decimal with [BASE_DECIMALS = 18] places, kept as the
    integer [value * 10^18] (so [fromSolidity] is the shift by -18 read
    back). [Price] and [Fee] are subclasses with the same representation. *)
Record BaseValue : Type := mkBaseValue {
  scaled : BigNumber
}.

(** [BaseValue.fromSolidity(solidityValue, isPositive = true)]. *)
Definition BaseValue_fromSolidity (solidityValue : BigNumber) (isPositive : bool) : BaseValue :=
  {| scaled := if isPositive then solidityValue else BN_negated solidityValue |}.

(** [Log] of web3-core: a raw log of a receipt. *)
Record Log : Type := mkLog {
  log_address : string;
  log_data : string;
  log_topics : list string;
  log_logIndex : Z;
  log_transactionHash : string;
  log_transactionIndex : Z;
  log_blockHash : string;
  log_blockNumber : Z
}.

(** [EventLog] of web3-core: an entry of the name-keyed [events] map, with
    the raw data under [raw]. *)
Record EventLog : Type := mkEventLog {
  ev_address : string;
  ev_raw_data : string;
  ev_raw_topics : list string;
  ev_logIndex : Z;
  ev_transactionHash : string;
  ev_transactionIndex : Z;
  ev_blockHash : string;
  ev_blockNumber : Z
}.

(** A value of the [events] map: one event, or the list of the repeated
    emissions of that name. *)
Inductive EventEntry : Type :=
  | OneEvent (e : EventLog)
  | ManyEvents (es : list EventLog).

(** The handle on the confirmation promise of a submission. *)
Inductive PromiseHandle : Type :=
  | ConfirmationPromise.

(** [interface TxResult]: every field is optional. The [events] object is
    the list of its entries in insertion order. *)
Record TxResult : Type := mkTxResult {
  transactionHash : option string;
  transactionIndex : option Z;
  blockHash : option string;
  blockNumber : option Z;
  res_from : option string;
  res_to : option string;
  contractAddress : option string;
  cumulativeGasUsed : option number;
  gasUsed : option number;
  logs : option (list Log);
  events : option (list (string * EventEntry));
  status : option bool;
  confirmation : option PromiseHandle;
  gasEstimate : option number;
  gas : option number
}.

(** The object literal [{}] seen as a [TxResult]. *)
Definition empty_result : TxResult :=
  {| transactionHash := None; transactionIndex := None; blockHash := None;
     blockNumber := None; res_from := None; res_to := None;
     contractAddress := None; cumulativeGasUsed := None; gasUsed := None;
     logs := None; events := None; status := None; confirmation := None;
     gasEstimate := None; gas := None |}.

Definition present {A : Type} (name : string) (f : option A) : list string :=
  match f with
  | Some _ => [name]
  | None => []
  end.

(** The names of the fields an object carries. *)
Definition fields (r : TxResult) : list string :=
  present "transactionHash" (transactionHash r)
  ++ present "transactionIndex" (transactionIndex r)
  ++ present "blockHash" (blockHash r)
  ++ present "blockNumber" (blockNumber r)
  ++ present "from" (res_from r)
  ++ present "to" (res_to r)
  ++ present "contractAddress" (contractAddress r)
  ++ present "cumulativeGasUsed" (cumulativeGasUsed r)
  ++ present "gasUsed" (gasUsed r)
  ++ present "logs" (logs r)
  ++ present "events" (events r)
  ++ present "status" (status r)
  ++ present "confirmation" (confirmation r)
  ++ present "gasEstimate" (gasEstimate r)
  ++ present "gas" (gas r).

(* ===================================================================== *)
(** * ABI descriptors and contracts *)
(* ===================================================================== *)

(** [AbiInput] of web3-utils. *)
Local Unset Elimination Schemes.
Inductive AbiInput : Type := mkAbiInput {
  input_name : string;
  input_type : string;
  input_internalType : option string;
  input_components : list AbiInput
}.
Local Set Elimination Schemes.

(** [AbiItem] of web3-utils; [item_signature] is the signature hash web3
    attaches to the events of a contract's [jsonInterface]. *)
Record AbiItem : Type := mkAbiItem {
  item_type : string;
  item_name : string;
  item_signature : string;
  item_inputs : list AbiInput
}.

(** [interface Json]: a build artifact; [networks] is the deployment table,
    network id to deployed address (a non-empty text). *)
Record Json : Type := mkJson {
  abi : list AbiItem;
  networks : gmap Z string
}.

(** A web3 [Contract] object. [contract_id] stands for the identity of the
    object: the named fields of [Contracts] and the entries of
    [contractsList] refer to the same objects. *)
Record Contract : Type := mkContract {
  contract_id : nat;
  jsonInterface : list AbiItem;
  options_address : option string
}.

(** [interface ContractInfo]. *)
Record ContractInfo : Type := mkContractInfo {
  contract : Contract;
  json : Json;
  isTest : bool
}.

(** The signals a [PromiEvent] emits. *)
Inductive Signal : Type :=
  | SigError (error : JsError)
  | SigTransactionHash (txHash : string)
  | SigConfirmation (confNumber : number) (receipt : TxResult)
  | SigReceipt (receipt : TxResult).

(** A [ContractSendMethod]: the contract it belongs to ([_parent]), its
    name, its encoded payload, and the remote peer behind it: what
    [estimateGas] answers and which signals the [PromiEvent] returned by
    [send] emits. *)
Record ContractSendMethod : Type := mkMethod {
  _parent : nat;
  _parent_address : option string;
  _method_name : string;
  encodeABI : string;
  peer_estimateGas : TxOptions -> Result Z;
  peer_send : TxOptions -> list Signal
}.

(** A call received by the remote peer. *)
Inductive PeerCall : Type :=
  | EstimateGasCall (o : TxOptions)
  | BroadcastCall (o : TxOptions).

Definition is_estimate (c : PeerCall) : bool :=
  match c with
  | EstimateGasCall _ => true
  | BroadcastCall _ => false
  end.

Definition is_broadcast (c : PeerCall) : bool :=
  match c with
  | EstimateGasCall _ => false
  | BroadcastCall _ => true
  end.

(* ===================================================================== *)
(** * [modules/Contracts.ts] *)
(* ===================================================================== *)

(** [enum OUTCOMES]. *)
Inductive OUTCOMES : Type :=
  | INITIAL
  | RESOLVED
  | REJECTED.

(** An entry of [_gasUsedByFunction]. *)
Record GasRecord : Type := mkGasRecord {
  rec_gasUsed : option number;
  rec_name : string
}.

(** [class Contracts]. The named contract fields hold the identity of the
    contract object they alias in [contractsList]. [env_DEBUG_GAS] is
    [process.env.DEBUG_GAS_USAGE_BY_FUNCTION]. *)
Record Contracts : Type := mkContracts {
  defaultOptions : SendOptions;
  _cumulativeGasUsed : number;
  _gasUsedByFunction : list GasRecord;
  contractsList : list ContractInfo;
  perpetualProxy : nat;
  perpetualV1 : nat;
  p1FundingOracle : nat;
  p1MakerOracle : nat;
  p1Orders : nat;
  p1Deleveraging : nat;
  p1Liquidation : nat;
  p1LiquidatorProxy : nat;
  erc20 : nat;
  env_DEBUG_GAS : option string
}.

(** [_.find(this.contractsList, { contract })]. *)
Definition find_contract (l : list ContractInfo) (id : nat) : option ContractInfo :=
  List.find (fun ci => Nat.eqb (contract_id (contract ci)) id) l.

Definition set_gas (c : Contracts) (total : number) (byFunction : list GasRecord) : Contracts :=
  {| defaultOptions := defaultOptions c;
     _cumulativeGasUsed := total;
     _gasUsedByFunction := byFunction;
     contractsList := contractsList c;
     perpetualProxy := perpetualProxy c;
     perpetualV1 := perpetualV1 c;
     p1FundingOracle := p1FundingOracle c;
     p1MakerOracle := p1MakerOracle c;
     p1Orders := p1Orders c;
     p1Deleveraging := p1Deleveraging c;
     p1Liquidation := p1Liquidation c;
     p1LiquidatorProxy := p1LiquidatorProxy c;
     erc20 := erc20 c;
     env_DEBUG_GAS := env_DEBUG_GAS c |}.

Definition set_contractsList (c : Contracts) (l : list ContractInfo) : Contracts :=
  {| defaultOptions := defaultOptions c;
     _cumulativeGasUsed := _cumulativeGasUsed c;
     _gasUsedByFunction := _gasUsedByFunction c;
     contractsList := l;
     perpetualProxy := perpetualProxy c;
     perpetualV1 := perpetualV1 c;
     p1FundingOracle := p1FundingOracle c;
     p1MakerOracle := p1MakerOracle c;
     p1Orders := p1Orders c;
     p1Deleveraging := p1Deleveraging c;
     p1Liquidation := p1Liquidation c;
     p1LiquidatorProxy := p1LiquidatorProxy c;
     erc20 := erc20 c;
     env_DEBUG_GAS := env_DEBUG_GAS c |}.

(** [getCumulativeGasUsed]. *)
Definition getCumulativeGasUsed (c : Contracts) : number :=
  _cumulativeGasUsed c.

(** [resetGasUsed]. *)
Definition resetGasUsed (c : Contracts) : Contracts :=
  set_gas c (Num 0) [].

(** [getGasUsedByFunction]. *)
Definition getGasUsedByFunction (c : Contracts) : list GasRecord :=
  _gasUsedByFunction c.

(** [setContractProvider]: the address of a contract on the network is the
    entry of its artifact's deployment table; [perpetualV1] takes the entry
    of the proxy's artifact (the constructor always registers the proxy, so
    the lookup of its artifact succeeds). The setter of [options.address] of
    a web3 contract assigns a truthy value only: when the table has no
    entry for the network, the assignment of [undefined] leaves the
    contract with the address it had. *)
Definition setContractProvider (c : Contracts) (networkId : Z) (ci : ContractInfo)
  : ContractInfo :=
  let j :=
    if Nat.eqb (contract_id (contract ci)) (perpetualV1 c) then
      match find_contract (contractsList c) (perpetualProxy c) with
      | Some p => json p
      | None => json ci
      end
    else json ci in
  {| contract :=
       {| contract_id := contract_id (contract ci);
          jsonInterface := jsonInterface (contract ci);
          options_address :=
            match networks j !! networkId with
            | Some address => Some address
            | None => options_address (contract ci)
            end |};
     json := json ci;
     isTest := isTest ci |}.

(** [setProvider]. *)
Definition setProvider (c : Contracts) (networkId : Z) : Contracts :=
  set_contractsList c (List.map (setContractProvider c networkId) (contractsList c)).

(** [addContract]: the new contract object is pushed on [contractsList];
    its identity is its position. *)
Definition addContract (l : list ContractInfo) (j : Json) (isTest : bool)
  : list ContractInfo * nat :=
  let id := length l in
  (l ++ [ {| contract := {| contract_id := id; jsonInterface := abi j;
                            options_address := None |};
             json := j; isTest := isTest |} ], id).

(** The nine build artifacts the constructor imports. *)
Record Artifacts : Type := mkArtifacts {
  perpetualProxyJson : Json;
  perpetualV1Json : Json;
  p1FundingOracleJson : Json;
  p1MakerOracleJson : Json;
  p1OrdersJson : Json;
  p1DeleveragingJson : Json;
  p1LiquidationJson : Json;
  p1LiquidatorProxyJson : Json;
  erc20Json : Json
}.

(** The defaults of the constructor, before [...sendOptions]. *)
Definition builtin_options : SendOptions :=
  {| so_from := None;
     so_gasPrice := Some (Num 1000000000);
     so_gas := None;
     so_value := Some (Num 0);
     confirmations := Some (Num 0);
     confirmationType := Some (ConfirmationType_value Confirmed);
     gasMultiplier := Some (binary64_of_ratio 3 2) |}.

(** The constructor of [Contracts]. Its last call, [setDefaultAccount], sets
    [options.from] of each contract, which nothing below reads. *)
Definition new_Contracts (a : Artifacts) (networkId : Z) (sendOptions : SendOptions)
    (debugGas : option string) : Contracts :=
  let '(l, proxy) := addContract [] (perpetualProxyJson a) false in
  let '(l, v1) := addContract l (perpetualV1Json a) false in
  let '(l, funding) := addContract l (p1FundingOracleJson a) false in
  let '(l, maker) := addContract l (p1MakerOracleJson a) false in
  let '(l, orders) := addContract l (p1OrdersJson a) false in
  let '(l, delev) := addContract l (p1DeleveragingJson a) false in
  let '(l, liq) := addContract l (p1LiquidationJson a) false in
  let '(l, liqProxy) := addContract l (p1LiquidatorProxyJson a) false in
  let '(l, token) := addContract l (erc20Json a) true in
  setProvider
    {| defaultOptions := spread builtin_options sendOptions;
       _cumulativeGasUsed := Num 0;
       _gasUsedByFunction := [];
       contractsList := l;
       perpetualProxy := proxy;
       perpetualV1 := v1;
       p1FundingOracle := funding;
       p1MakerOracle := maker;
       p1Orders := orders;
       p1Deleveraging := delev;
       p1Liquidation := liq;
       p1LiquidatorProxy := liqProxy;
       erc20 := token;
       env_DEBUG_GAS := debugGas |}
    networkId.

(** ** The two races of [_send] *)

(** The listeners [_send] registers on the [PromiEvent], named after the
    race that registers them and the event they listen to. *)
Inductive Listener : Type :=
  | HashOnError
  | HashOnTransactionHash
  | ConfirmationOnError
  | ConfirmationOnConfirmation
  | ConfirmationOnReceipt.

(** What [_send] returns: an object literal, or [confirmationPromise]
    itself. *)
Inductive SendValue : Type :=
  | ReturnObject (r : TxResult)
  | ReturnPromise (h : PromiseHandle).

(** Where the asynchronous body of [_send] stands. *)
Inductive Completion : Type :=
  | AwaitingHash
  | Returned (v : SendValue)
  | Threw (e : JsError).

(** The local variables of [_send] after [method.send], the listeners
    registered on [promi], and the progress of the body. A promise
    variable that was never assigned is [None]. *)
Record SendState : Type := mkSendState {
  hashOutcome : OUTCOMES;
  confirmationOutcome : OUTCOMES;
  txHash_var : option string;
  hashPromise : option (Promise string);
  confirmationPromise : option (Promise TxResult);
  listeners : list Listener;
  completion : Completion
}.

Definition set_hash (s : SendState) (o : OUTCOMES) (p : option (Promise string))
    (ls : list Listener) : SendState :=
  {| hashOutcome := o;
     confirmationOutcome := confirmationOutcome s;
     txHash_var := txHash_var s;
     hashPromise := p;
     confirmationPromise := confirmationPromise s;
     listeners := ls;
     completion := completion s |}.

Definition set_confirmation (s : SendState) (o : OUTCOMES)
    (p : option (Promise TxResult)) (ls : list Listener) : SendState :=
  {| hashOutcome := hashOutcome s;
     confirmationOutcome := o;
     txHash_var := txHash_var s;
     hashPromise := hashPromise s;
     confirmationPromise := p;
     listeners := ls;
     completion := completion s |}.

Definition set_completion (s : SendState) (h : option string) (c : Completion)
  : SendState :=
  {| hashOutcome := hashOutcome s;
     confirmationOutcome := confirmationOutcome s;
     txHash_var := h;
     hashPromise := hashPromise s;
     confirmationPromise := confirmationPromise s;
     listeners := listeners s;
     completion := c |}.

(** [(promi as any).off()]. The emitter of a web3 [PromiEvent] is an
    eventemitter3 object, whose [off] is [removeListener(event, fn)]: it
    removes listeners of the event it is given, and called without an event
    name it finds no such event and removes nothing. *)
Definition off (ls : list Listener) : list Listener := ls.

Definition is_INITIAL (o : OUTCOMES) : bool :=
  match o with
  | INITIAL => true
  | _ => false
  end.

Definition is_RESOLVED (o : OUTCOMES) : bool :=
  match o with
  | RESOLVED => true
  | _ => false
  end.

(** The body of one listener, run on a signal of the event it listens to;
    [confirmationType] and [confirmations] are the variables of [_send]
    the closures capture. *)
Definition run_listener (confirmationType : ConfirmationType)
    (confirmations : option number) (l : Listener) (sig : Signal)
    (s : SendState) : SendState :=
  match l, sig with
  | HashOnError, SigError error =>
      if is_INITIAL (hashOutcome s) then
        set_hash s REJECTED (reject error <$> hashPromise s) (off (listeners s))
      else s
  | HashOnTransactionHash, SigTransactionHash txHash =>
      if is_INITIAL (hashOutcome s) then
        set_hash s RESOLVED (resolve txHash <$> hashPromise s)
          (if negb (ConfirmationType_eqb confirmationType Both)
           then off (listeners s) else listeners s)
      else s
  | ConfirmationOnError, SigError error =>
      if is_INITIAL (confirmationOutcome s)
         && (ConfirmationType_eqb confirmationType Confirmed
             || is_RESOLVED (hashOutcome s))
      then
        set_confirmation s REJECTED (reject error <$> confirmationPromise s)
          (off (listeners s))
      else s
  | ConfirmationOnConfirmation, SigConfirmation confNumber receipt =>
      if js_ge confNumber confirmations then
        if is_INITIAL (confirmationOutcome s) then
          set_confirmation s RESOLVED (resolve receipt <$> confirmationPromise s)
            (off (listeners s))
        else s
      else s
  | ConfirmationOnReceipt, SigReceipt receipt =>
      set_confirmation s RESOLVED (resolve receipt <$> confirmationPromise s)
        (off (listeners s))
  | _, _ => s
  end.

(** The emitter calls, in registration order, the listeners that were
    registered when the signal was emitted. *)
Definition emit (confirmationType : ConfirmationType) (confirmations : option number)
    (sig : Signal) (s : SendState) : SendState :=
  fold_left (fun acc l => run_listener confirmationType confirmations l sig acc)
    (listeners s) s.

(** Lines 408-432: the hash race is armed. *)
Definition arm_hash (s : SendState) : SendState :=
  set_hash s (hashOutcome s) (Some PPending)
    (listeners s ++ [HashOnError; HashOnTransactionHash]).

(** Lines 436-475: the confirmation race is armed. *)
Definition arm_confirmation (confirmations : option number) (s : SendState)
  : SendState :=
  set_confirmation s (confirmationOutcome s) (Some PPending)
    (listeners s
     ++ [ConfirmationOnError;
         if truthy confirmations then ConfirmationOnConfirmation
         else ConfirmationOnReceipt]).

(** Lines 436-488: the rest of the body once the hash race is behind. *)
Definition after_hash (confirmationType : ConfirmationType)
    (confirmations : option number) (s : SendState) : SendState :=
  let s1 :=
    match confirmationType with
    | Confirmed | Both => arm_confirmation confirmations s
    | _ => s
    end in
  match confirmationType with
  | Hash =>
      set_completion s1 (txHash_var s1)
        (Returned (ReturnObject
          {| transactionHash := txHash_var s1; transactionIndex := None;
             blockHash := None; blockNumber := None; res_from := None;
             res_to := None; contractAddress := None; cumulativeGasUsed := None;
             gasUsed := None; logs := None; events := None; status := None;
             confirmation := None; gasEstimate := None; gas := None |}))
  | Confirmed =>
      set_completion s1 (txHash_var s1) (Returned (ReturnPromise ConfirmationPromise))
  | _ =>
      set_completion s1 (txHash_var s1)
        (Returned (ReturnObject
          {| transactionHash := txHash_var s1; transactionIndex := None;
             blockHash := None; blockNumber := None; res_from := None;
             res_to := None; contractAddress := None; cumulativeGasUsed := None;
             gasUsed := None; logs := None; events := None; status := None;
             confirmation := (fun _ => ConfirmationPromise) <$> confirmationPromise s1;
             gasEstimate := None; gas := None |}))
  end.

(** Lines 399-434: the state when the body first yields, after
    [method.send(txOptions)]. With a hash race the body waits at
    [await hashPromise]; otherwise it runs to its [return]. *)
Definition start (confirmationType : ConfirmationType)
    (confirmations : option number) : SendState :=
  let s0 :=
    {| hashOutcome := INITIAL; confirmationOutcome := INITIAL;
       txHash_var := None; hashPromise := None; confirmationPromise := None;
       listeners := []; completion := AwaitingHash |} in
  match confirmationType with
  | Hash | Both => arm_hash s0
  | _ => after_hash confirmationType confirmations s0
  end.

(** The continuation of [transactionHash = await hashPromise], run once the
    listeners of a signal have returned. *)
Definition resume (confirmationType : ConfirmationType)
    (confirmations : option number) (s : SendState) : SendState :=
  match completion s with
  | AwaitingHash =>
      match hashPromise s with
      | Some (PFulfilled txHash) =>
          after_hash confirmationType confirmations
            (set_completion s (Some txHash) AwaitingHash)
      | Some (PRejected error) => set_completion s (txHash_var s) (Threw error)
      | _ => s
      end
  | _ => s
  end.

(** One signal of the transport: its listeners run, then the body resumes
    if its promise was settled. *)
Definition step (confirmationType : ConfirmationType)
    (confirmations : option number) (s : SendState) (sig : Signal) : SendState :=
  resume confirmationType confirmations (emit confirmationType confirmations sig s).

(** The state after a sequence of signals. *)
Definition run (confirmationType : ConfirmationType)
    (confirmations : option number) (sigs : list Signal) : SendState :=
  fold_left (step confirmationType confirmations) sigs
    (start confirmationType confirmations).

(** ** [estimateGas], [_send] and [send] *)

(** [estimateGas]: the peer's estimate; a failure is thrown again with the
    call's data attached. *)
Definition estimateGas (method : ContractSendMethod) (txOptions : TxOptions)
  : Result Z :=
  match peer_estimateGas method txOptions with
  | Ok gasEstimate => Ok gasEstimate
  | Err error =>
      Err {| message := message error;
             transactionData :=
               Some {| td_from := tx_from txOptions;
                       td_value := tx_value txOptions;
                       td_data := encodeABI method;
                       td_to := _parent_address method |} |}
  end.

(** What one call of [_send] did: the calls the peer received, in order,
    how the body completed, and the state of the races when the call was
    broadcast. *)
Record SendRun : Type := mkSendRun {
  calls : list PeerCall;
  outcome : Completion;
  races : option SendState
}.

Definition set_tx_gas (o : TxOptions) (g : number) : TxOptions :=
  {| tx_from := tx_from o; tx_gasPrice := tx_gasPrice o;
     tx_gas := Some g; tx_value := tx_value o |}.

(** The text of [${confirmationType}]. *)
Definition show_raw (raw : option Z) : string :=
  match raw with
  | Some z => pretty z
  | None => "undefined"
  end.

(** Lines 399-488 of [_send]: the call is broadcast and the races observe
    the signals of the transmission. *)
Definition broadcast (method : ContractSendMethod) (ct : ConfirmationType)
    (confirmations : option number) (before : list PeerCall)
    (txOptions : TxOptions) : SendRun :=
  let s := run ct confirmations (peer_send method txOptions) in
  {| calls := before ++ [BroadcastCall txOptions];
     outcome := completion s;
     races := Some s |}.

(** [_send]. *)
Definition _send (method : ContractSendMethod) (sendOptions : SendOptions)
  : SendRun :=
  let txOptions :=
    {| tx_from := so_from sendOptions; tx_gasPrice := so_gasPrice sendOptions;
       tx_gas := so_gas sendOptions; tx_value := so_value sendOptions |} in
  match ConfirmationType_of (confirmationType sendOptions) with
  | None =>
      {| calls := [];
         outcome := Threw (Error ("Invalid confirmation type: "
                                  +:+ show_raw (confirmationType sendOptions)));
         races := None |}
  | Some ct =>
      if ConfirmationType_eqb ct Simulate || negb (truthy (tx_gas txOptions)) then
        match estimateGas method txOptions with
        | Err error =>
            {| calls := [EstimateGasCall txOptions];
               outcome := Threw error;
               races := None |}
        | Ok gasEstimate =>
            let txOptions' :=
              set_tx_gas txOptions
                (Math_floor_times gasEstimate (gasMultiplier sendOptions)) in
            if ConfirmationType_eqb ct Simulate then
              {| calls := [EstimateGasCall txOptions];
                 outcome :=
                   Returned (ReturnObject
                     {| transactionHash := None; transactionIndex := None;
                        blockHash := None; blockNumber := None; res_from := None;
                        res_to := None; contractAddress := None;
                        cumulativeGasUsed := None; gasUsed := None; logs := None;
                        events := None; status := None; confirmation := None;
                        gasEstimate := Some (Num gasEstimate);
                        gas := tx_gas txOptions' |});
                 races := None |}
            else
              broadcast method ct (confirmations sendOptions)
                [EstimateGasCall txOptions] txOptions'
        end
      else broadcast method ct (confirmations sendOptions) [] txOptions
  end.

(** The result of awaiting an asynchronous call. *)
Inductive Awaited : Type :=
  | Value (result : TxResult)
  | Thrown (error : JsError)
  | Unsettled.

(** [await this._send(method, sendOptions)]: a returned promise is followed
    to its settlement; a body still waiting for its hash, or a promise the
    signals never settled, leaves the caller waiting. *)
Definition await_send (r : SendRun) : Awaited :=
  match outcome r with
  | Threw error => Thrown error
  | AwaitingHash => Unsettled
  | Returned (ReturnObject o) => Value o
  | Returned (ReturnPromise ConfirmationPromise) =>
      match races r with
      | Some s =>
          match confirmationPromise s with
          | Some (PFulfilled receipt) => Value receipt
          | Some (PRejected error) => Thrown error
          | _ => Unsettled
          end
      | None => Unsettled
      end
  end.

(** What [send] leaves behind: its awaited result, the [Contracts] object
    after the call, and the calls the peer received. *)
Record Sent : Type := mkSent {
  awaited : Awaited;
  contracts_after : Contracts;
  peer_calls : list PeerCall
}.

Definition raw_is (raw : option Z) (ct : ConfirmationType) : bool :=
  match raw with
  | Some z => z =? ConfirmationType_value ct
  | None => false
  end.

Definition string_is (s : option string) (t : string) : bool :=
  match s with
  | Some x => String.eqb x t
  | None => false
  end.

(** [send]. *)
Definition send (c : Contracts) (method : ContractSendMethod)
    (specificOptions : SendOptions) : Sent :=
  let sendOptions := spread (defaultOptions c) specificOptions in
  let r := _send method sendOptions in
  match await_send r with
  | Value result =>
      if raw_is (confirmationType sendOptions) Confirmed
         || raw_is (confirmationType sendOptions) Both
      then
        match find_contract (contractsList c) (_parent method) with
        | Some contractInfo =>
            if negb (isTest contractInfo) then
              let gasUsed := gasUsed result in
              {| awaited := Value result;
                 contracts_after :=
                   set_gas c (js_plus (_cumulativeGasUsed c) gasUsed)
                     (if string_is (env_DEBUG_GAS c) "true"
                      then _gasUsedByFunction c
                           ++ [ {| rec_gasUsed := gasUsed;
                                   rec_name := _method_name method |} ]
                      else _gasUsedByFunction c);
                 peer_calls := calls r |}
            else
              {| awaited := Value result; contracts_after := c;
                 peer_calls := calls r |}
        | None =>
            {| awaited := Value result; contracts_after := c;
               peer_calls := calls r |}
        end
      else
        {| awaited := Value result; contracts_after := c; peer_calls := calls r |}
  | other => {| awaited := other; contracts_after := c; peer_calls := calls r |}
  end.

(* ===================================================================== *)
(** * [bignumber.js]: reading integers *)
(* ===================================================================== *)

Definition upper_ascii (c : ascii) : ascii :=
  let n := nat_of_ascii c in
  if ((97 <=? n)%nat && (n <=? 122)%nat)%bool then ascii_of_nat (n - 32) else c.

Fixpoint toUpperCase (s : string) : string :=
  match s with
  | EmptyString => EmptyString
  | String c r => String (upper_ascii c) (toUpperCase r)
  end.

(** The position of a character in the alphabet [0-9a-z] of the library. *)
Definition digit_value (c : ascii) : option Z :=
  let n := Z.of_nat (nat_of_ascii c) in
  if (48 <=? n) && (n <=? 57) then Some (n - 48)
  else if (97 <=? n) && (n <=? 122) then Some (n - 87)
  else None.

(** The digits of [s] in [base], most significant first. *)
Fixpoint read_digits (base : Z) (acc : Z) (s : string) : option Z :=
  match s with
  | EmptyString => Some acc
  | String c r =>
      match digit_value c with
      | Some d => if d <? base then read_digits base (acc * base + d) r else None
      | None => None
      end
  end.

(** Digits in one case: lower case, or a text wholly in upper case. *)
Definition read_cased (base : Z) (s : string) : option Z :=
  match read_digits base 0 s with
  | Some z => Some z
  | None =>
      if String.eqb s (toUpperCase s) then read_digits base 0 (toLowerCase s)
      else None
  end.

(** [new BigNumber(str, 16)] on the integer texts a log word is cut into:
    hexadecimal digits in one case, with an optional [0x] prefix. Signs,
    fractions and exponents do not occur in a log word and read as [NaN]
    here. *)
Definition BigNumber_hex (str : string) : BigNumber :=
  match read_cased 16 str with
  | Some z => BN z
  | None =>
      match str with
      | String "0" (String x (String c r)) =>
          if Ascii.eqb x "x" || Ascii.eqb x "X" then
            match read_cased 16 (String c r) with
            | Some z => BN z
            | None => BN_NaN
            end
          else BN_NaN
      | _ => BN_NaN
      end
  end.

(** [new BigNumber(str)] on a decimal integer text, as web3 renders a
    decoded integer. *)
Definition BigNumber_dec (str : string) : BigNumber :=
  match str with
  | EmptyString => BN_NaN
  | String "-" (String c r) =>
      match read_digits 10 0 (String c r) with
      | Some z => BN (- z)
      | None => BN_NaN
      end
  | _ =>
      match read_digits 10 0 str with
      | Some z => BN z
      | None => BN_NaN
      end
  end.

(* ===================================================================== *)
(** * [modules/Logs.ts] *)
(* ===================================================================== *)

(** A decoded event argument as [web3.eth.abi.decodeLog] returns it. *)
Local Unset Elimination Schemes.
Inductive JsValue : Type :=
  | VUndefined
  | VBool (b : bool)
  | VString (s : string)
  | VObject (props : list (string * JsValue)).
Local Set Elimination Schemes.

(** [new BigNumber(argValue)]. *)
Definition BigNumber_new (argValue : JsValue) : BigNumber :=
  match argValue with
  | VString s => BigNumber_dec s
  | _ => BN_NaN
  end.

(** [new BigNumber(flags, 16)]. *)
Definition BigNumber_new16 (argValue : JsValue) : BigNumber :=
  match argValue with
  | VString s => BigNumber_hex s
  | _ => BN_NaN
  end.

Fixpoint assoc {A : Type} (k : string) (l : list (string * A)) : option A :=
  match l with
  | [] => None
  | (k', v) :: r => if String.eqb k' k then Some v else assoc k r
  end.

(** [obj[name] = v]: an existing key keeps its place. *)
Fixpoint assign {A : Type} (k : string) (v : A) (l : list (string * A))
  : list (string * A) :=
  match l with
  | [] => [(k, v)]
  | (k', v') :: r => if String.eqb k' k then (k', v) :: r else (k', v') :: assign k v r
  end.

(** [eventArgs[name]]: reading a property of [undefined] throws. *)
Definition get_prop (obj : JsValue) (name : string) : Result JsValue :=
  match obj with
  | VUndefined => Err (Error "TypeError: Cannot read property of undefined")
  | VObject props =>
      match assoc name props with
      | Some v => Ok v
      | None => Ok VUndefined
      end
  | _ => Ok VUndefined
  end.

(** The receiver of [.substr]: calling it on a value that is not a string
    throws. *)
Definition as_string (v : JsValue) : Result string :=
  match v with
  | VString s => Ok s
  | _ => Err (Error "TypeError: substr is not a function")
  end.

(** The typed value of an event argument. *)
Local Unset Elimination Schemes.
Inductive Parsed : Type :=
  | PValue (v : JsValue)
  | PBigNumber (b : BigNumber)
  | PBalance (b : Balance) (rawValue : string)
  | PIndex (timestamp : BigNumber) (rawValue : string) (baseValue : BaseValue)
  | POrderFlags (rawValue : JsValue) (isBuy isDecreaseOnly isNegativeLimitFee : bool)
  | PBaseValue (v : BaseValue)
  | PArgs (args : list (string * Parsed)).
Local Set Elimination Schemes.

(** [TUPLE_MAP]. *)
Definition TUPLE_MAP : list (string * list string) :=
  [ ("struct P1Orders.Fill", ["amount"; "price"; "fee"; "isNegativeFee"]) ].

(** Modelled from the spec: [ORDER_FLAGS] of [lib/Constants], which is not
    among the sources: bit 0 is is-buy, bit 1 is is-decrease-only, bit 2 is
    is-negative-limit-fee. *)
Definition ORDER_FLAGS_IS_BUY : Z := 1.
Definition ORDER_FLAGS_IS_DECREASE_ONLY : Z := 2.
Definition ORDER_FLAGS_IS_NEGATIVE_LIMIT_FEE : Z := 4.

(** Modelled from the spec: [addressesAreEqual] of [lib/BytesHelper], which
    is not among the sources: addresses are compared case-insensitively,
    brought to a single case before the comparison; an absent address is
    equal to none. *)
Definition addressesAreEqual (addressOne : string) (addressTwo : option string)
  : bool :=
  match addressTwo with
  | Some a => String.eqb (toLowerCase addressOne) (toLowerCase a)
  | None => false
  end.

(** [parseBalance]. *)
Definition parseBalance (balance : string) : Balance :=
  let margin := BigNumber_hex (substr 4 30 balance) in
  let position := BigNumber_hex (substr 36 30 balance) in
  let marginIsPositive := negb (BN_isZero (BigNumber_hex (substr 2 2 balance))) in
  let positionIsPositive := negb (BN_isZero (BigNumber_hex (substr 34 2 balance))) in
  {| margin := if marginIsPositive then margin else BN_negated margin;
     position := if positionIsPositive then position else BN_negated position |}.

(** [parseIndex]; [parseFundingRate] is the same function. *)
Definition parseIndex (index : string) : Parsed :=
  let timestamp := BigNumber_hex (substr 2 30 index) in
  let isPositive := negb (BN_isZero (BigNumber_hex (substr 32 2 index))) in
  let value := BigNumber_hex (substr 34 32 index) in
  PIndex timestamp index (BaseValue_fromSolidity value isPositive).

Definition parseFundingRate (fundingRate : string) : Parsed :=
  parseIndex fundingRate.

(** [parseOrderFlags]: [NaN & flag] is [0]. *)
Definition parseOrderFlags (flags : JsValue) : Parsed :=
  let flagsNumber :=
    match BigNumber_new16 flags with
    | BN z => Z.rem z 8
    | BN_NaN => 0
    end in
  POrderFlags flags
    (negb (Z.land flagsNumber ORDER_FLAGS_IS_BUY =? 0))
    (negb (Z.land flagsNumber ORDER_FLAGS_IS_DECREASE_ONLY =? 0))
    (negb (Z.land flagsNumber ORDER_FLAGS_IS_NEGATIVE_LIMIT_FEE =? 0)).

(** [/^bytes[0-9]*$/] and [/^uint[0-9]*$/]. *)
Fixpoint all_digits (s : string) : bool :=
  match s with
  | EmptyString => true
  | String c r =>
      let n := nat_of_ascii c in
      ((48 <=? n)%nat && (n <=? 57)%nat)%bool && all_digits r
  end.

Definition matches_prefix_digits (prefix s : string) : bool :=
  String.eqb (take_str (String.length prefix) s) prefix
  && all_digits (drop_str (String.length prefix) s).

Definition name_in (name : string) (names : list string) : bool :=
  existsb (String.eqb name) names.

(** [parseArgs], over the function that parses one value. *)
Definition parseArgs_with (parse : AbiInput -> JsValue -> Result Parsed)
    (eventArgs : JsValue) : list AbiInput -> list (string * Parsed)
                            -> Result (list (string * Parsed)) :=
  fix loop (inputs : list AbiInput) (parsedObject : list (string * Parsed)) :=
    match inputs with
    | [] => Ok parsedObject
    | input :: rest =>
        argValue ← get_prop eventArgs (input_name input);
        v ← parse input argValue;
        loop rest (assign (input_name input) v parsedObject)
    end.

(** [parseValue], with [parseTuple] in its [tuple] case. *)
Fixpoint parseValue (input : AbiInput) (argValue : JsValue) {struct input}
  : Result Parsed :=
  match input with
  | mkAbiInput name type internalType components =>
      if String.eqb type "bytes32"
         && name_in name ["balance"; "makerBalance"; "takerBalance"] then
        balance ← as_string argValue;
        Ok (PBalance (parseBalance balance) balance)
      else if String.eqb type "bytes32" && String.eqb name "index" then
        index ← as_string argValue; Ok (parseIndex index)
      else if String.eqb type "bytes32" && String.eqb name "flags" then
        Ok (parseOrderFlags argValue)
      else if String.eqb type "bytes32" && String.eqb name "fundingRate" then
        fundingRate ← as_string argValue; Ok (parseFundingRate fundingRate)
      else if String.eqb type "uint256" && String.eqb name "fee" then
        Ok (PBaseValue (BaseValue_fromSolidity (BigNumber_new argValue) true))
      else if String.eqb type "uint256"
              && name_in name ["price"; "oraclePrice"; "settlementPrice";
                               "triggerPrice"] then
        Ok (PBaseValue (BaseValue_fromSolidity (BigNumber_new argValue) true))
      else if String.eqb type "address" then Ok (PValue argValue)
      else if String.eqb type "bool" then Ok (PValue argValue)
      else if matches_prefix_digits "bytes" type then Ok (PValue argValue)
      else if matches_prefix_digits "uint" type then
        Ok (PBigNumber (BigNumber_new argValue))
      else if String.eqb type "tuple" then
        match internalType with
        | None => Err (Error "Unknown tuple type 'undefined' in event")
        | Some t =>
            match assoc t TUPLE_MAP with
            | None => Err (Error ("Unknown tuple type '" +:+ t +:+ "' in event"))
            | Some expectedTupleArgs =>
                let actualTupleArgs := List.map input_name components in
                if bool_decide (expectedTupleArgs = actualTupleArgs) then
                  args ← parseArgs_with parseValue argValue components [];
                  Ok (PArgs args)
                else Err (Error ("Arg name mismatch for tuple " +:+ t))
            end
        end
      else Err (Error ("Unknown event arg type " +:+ type))
  end.

(** [parseArgs]. *)
Definition parseArgs (inputs : list AbiInput) (eventArgs : JsValue)
  : Result (list (string * Parsed)) :=
  parseArgs_with parseValue eventArgs inputs [].

(** The part of [web3] the decoder uses: [web3.eth.abi.decodeLog], which
    may throw on data that does not fit the inputs. *)
Record Web3 : Type := mkWeb3 {
  decodeLog : list AbiInput -> string -> list string -> Result JsValue
}.

(** [class Logs]. *)
Record Logs : Type := mkLogs {
  contracts : Contracts;
  _contractsByAddress : option (gmap string Contract);
  web3 : Web3
}.

(** A parsed log: [{ ...log, name, args }]. *)
Record ParsedLog : Type := mkParsedLog {
  parsed_log : Log;
  parsed_name : string;
  parsed_args : list (string * Parsed)
}.

(** [!contract.options.address]: an absent or empty address. *)
Definition no_address (a : option string) : bool :=
  match a with
  | None => true
  | Some s => String.eqb s ""
  end.

(** The loop of the [contractsByAddress] getter: the mapping filled so far
    and, when a contract that is not a test contract has no address, the
    error thrown. *)
Fixpoint fill_registry (l : list ContractInfo) (m : gmap string Contract)
  : gmap string Contract * option JsError :=
  match l with
  | [] => (m, None)
  | ci :: rest =>
      if isTest ci then fill_registry rest m
      else
        match options_address (contract ci) with
        | Some a =>
            if String.eqb a "" then
              (m, Some (Error "Contract has not been deployed"))
            else fill_registry rest (<[toLowerCase a := contract ci]> m)
        | None => (m, Some (Error "Contract has not been deployed"))
        end
  end.

(** The [contractsByAddress] getter. The field is assigned before the loop
    and filled in place: the mapping built so far stays in the object when
    the loop throws. *)
Definition contractsByAddress (lg : Logs) : Result (gmap string Contract) * Logs :=
  match _contractsByAddress lg with
  | Some m => (Ok m, lg)
  | None =>
      let '(m, thrown) := fill_registry (contractsList (contracts lg)) ∅ in
      let lg' := {| contracts := contracts lg;
                    _contractsByAddress := Some m;
                    web3 := web3 lg |} in
      match thrown with
      | None => (Ok m, lg')
      | Some error => (Err error, lg')
      end
  end.

(** [parseLogWithContract]; [null] is [None]. The comparison of the
    signatures reads [log.topics[0]], which throws when an event is tried
    against a log without topics. *)
Definition parseLogWithContract (w : Web3) (contract : Contract) (log : Log)
  : Result (option ParsedLog) :=
  let events :=
    List.filter (fun e => String.eqb (item_type e) "event") (jsonInterface contract) in
  match events with
  | [] => Ok None
  | _ :: _ =>
      match log_topics log with
      | [] => Err (Error "TypeError: Cannot read property 'toLowerCase' of undefined")
      | topic0 :: topics =>
          match List.find
                  (fun e => String.eqb (toLowerCase (item_signature e))
                                       (toLowerCase topic0)) events with
          | None => Ok None
          | Some eventJson =>
              eventArgs ← decodeLog w (item_inputs eventJson) (log_data log) topics;
              args ← parseArgs (item_inputs eventJson) eventArgs;
              Ok (Some {| parsed_log := log;
                          parsed_name := item_name eventJson;
                          parsed_args := args |})
          end
      end
  end.

(** [this.contracts.perpetualProxy]: the contract object the field refers
    to. The constructor registers the proxy first, so the field of an object
    it built always refers to an entry of [contractsList]. *)
Definition proxy_contract (c : Contracts) : option Contract :=
  contract <$> find_contract (contractsList c) (perpetualProxy c).

(** The property names every object inherits from [Object.prototype]:
    [key in object] holds for them on a registry that has no such entry,
    and [object[key]] is then a member of the prototype, not a contract. *)
Definition Object_prototype_keys : list string :=
  ["constructor"; "__defineGetter__"; "__defineSetter__"; "hasOwnProperty";
   "__lookupGetter__"; "__lookupSetter__"; "isPrototypeOf";
   "propertyIsEnumerable"; "toString"; "valueOf"; "__proto__";
   "toLocaleString"].

Definition inherited_key (k : string) : bool := name_in k Object_prototype_keys.

(** [parseLog]. The registry is a plain object: for an address that is no
    entry of it but the name of an inherited property, [parseLogWithContract]
    is given a value without [options] and its first line throws. *)
Definition parseLog (lg : Logs) (log : Log) : Result (option ParsedLog) * Logs :=
  let logAddress := toLowerCase (log_address log) in
  let fromProxy :=
    match proxy_contract (contracts lg) with
    | Some proxy =>
        if addressesAreEqual logAddress (options_address proxy)
        then parseLogWithContract (web3 lg) proxy log
        else Ok None
    | None => Ok None
    end in
  match fromProxy with
  | Err error => (Err error, lg)
  | Ok (Some parsedLog) => (Ok (Some parsedLog), lg)
  | Ok None =>
      match contractsByAddress lg with
      | (Err error, lg') => (Err error, lg')
      | (Ok registry, lg') =>
          match registry !! logAddress with
          | Some contract => (parseLogWithContract (web3 lg') contract log, lg')
          | None =>
              if inherited_key logAddress then
                (Err (Error "TypeError: Cannot read property 'jsonInterface' of undefined"),
                 lg')
              else (Ok None, lg')
          end
      end
  end.

(** [parseEvent]. *)
Definition parseEvent (lg : Logs) (event : EventLog)
  : Result (option ParsedLog) * Logs :=
  parseLog lg
    {| log_address := ev_address event;
       log_data := ev_raw_data event;
       log_topics := ev_raw_topics event;
       log_logIndex := ev_logIndex event;
       log_transactionHash := ev_transactionHash event;
       log_transactionIndex := ev_transactionIndex event;
       log_blockHash := ev_blockHash event;
       log_blockNumber := ev_blockNumber event |}.

(** [events.map(e => parse(e)).filter(l => !!l)]: the first throw ends the
    traversal. *)
Fixpoint map_filter {A : Type} (parse : Logs -> A -> Result (option ParsedLog) * Logs)
    (lg : Logs) (l : list A) : Result (list ParsedLog) * Logs :=
  match l with
  | [] => (Ok [], lg)
  | e :: rest =>
      match parse lg e with
      | (Err error, lg') => (Err error, lg')
      | (Ok parsed, lg') =>
          match map_filter parse lg' rest with
          | (Err error, lg'') => (Err error, lg'')
          | (Ok others, lg'') =>
              (Ok (match parsed with
                   | Some p => p :: others
                   | None => others
                   end), lg'')
          end
      end
  end.

(** [Object.values(tempEvents).forEach(...)]: the entries are flattened. *)
Definition flatten_events (tempEvents : list (string * EventEntry)) : list EventLog :=
  List.concat
    (List.map (fun kv => match snd kv with
                         | OneEvent e => [e]
                         | ManyEvents es => es
                         end) tempEvents).

(** [events.sort((a, b) => a.logIndex - b.logIndex)]: a stable sort; the
    events are inserted from the last to the first, each before the events
    that do not come before it. *)
Fixpoint insert_event (e : EventLog) (sorted : list EventLog) : list EventLog :=
  match sorted with
  | [] => [e]
  | x :: rest =>
      if ev_logIndex e <=? ev_logIndex x then e :: x :: rest
      else x :: insert_event e rest
  end.

Definition sort_events (l : list EventLog) : list EventLog :=
  fold_right insert_event [] l.

(** [parseLogs]. *)
Definition parseLogs (lg : Logs) (receipt : TxResult)
  : Result (list ParsedLog) * Logs :=
  match logs receipt with
  | Some events => map_filter parseLog lg events
  | None =>
      match events receipt with
      | Some tempEvents =>
          map_filter parseEvent lg (sort_events (flatten_events tempEvents))
      | None => (Err (Error "Receipt has no logs"), lg)
      end
  end.

(* ===================================================================== *)
(** * The packed Balance word *)
(* ===================================================================== *)

(** The lower-case hexadecimal digit of a value below 16. *)
Definition hex_digit (d : Z) : ascii :=
  if d <? 10 then ascii_of_nat (Z.to_nat (48 + d))
  else ascii_of_nat (Z.to_nat (87 + d)).

(** [n] hexadecimal digits of [z], big-endian. *)
Fixpoint to_hex (n : nat) (z : Z) : string :=
  match n with
  | O => EmptyString
  | S n' => to_hex n' (z / 16) +:+ String (hex_digit (z mod 16)) EmptyString
  end.

(** Modelled from the spec: the encoder of a Balance word, which is not
    among the sources (the contract emits the word). After the leading
    [0x], nibbles 2-3 hold the margin-sign flag (nonzero is positive),
    nibbles 4-33 the margin magnitude, nibbles 34-35 the position-sign flag
    and nibbles 36-65 the position magnitude, big-endian. *)
Definition encodeBalance (marginMagnitude positionMagnitude : Z)
    (marginIsPositive positionIsPositive : bool) : string :=
  "0x" +:+ to_hex 2 (if marginIsPositive then 1 else 0)
       +:+ to_hex 30 marginMagnitude
       +:+ to_hex 2 (if positionIsPositive then 1 else 0)
       +:+ to_hex 30 positionMagnitude.

(** The Balance a quadruple stands for. *)
Definition balance_of (marginMagnitude positionMagnitude : Z)
    (marginIsPositive positionIsPositive : bool) : Balance :=
  {| margin := BN (if marginIsPositive then marginMagnitude else - marginMagnitude);
     position := BN (if positionIsPositive then positionMagnitude
                     else - positionMagnitude) |}.

(** The nibbles of a word: its characters after the leading [0x]. *)
Definition nibbles (word : string) : nat :=
  String.length (drop_str 2 word).

(* ===================================================================== *)
(** * Vocabulary of the properties *)
(* ===================================================================== *)

(** The type and name combinations [parseValue] sends to a packed-struct
    parser, and those it sends to a fixed-point constructor. *)
Definition packed_rule (name type : string) : bool :=
  String.eqb type "bytes32"
  && name_in name ["balance"; "makerBalance"; "takerBalance"; "index"; "flags";
                   "fundingRate"].

Definition fixed_point_rule (name type : string) : bool :=
  String.eqb type "uint256"
  && name_in name ["fee"; "price"; "oraclePrice"; "settlementPrice"; "triggerPrice"].

Definition is_bytesN (type : string) : bool := matches_prefix_digits "bytes" type.
Definition is_uintN (type : string) : bool := matches_prefix_digits "uint" type.
Definition is_intN (type : string) : bool := matches_prefix_digits "int" type.

(** The types [parseValue] has a case for. *)
Definition recognized_type (type : string) : bool :=
  String.eqb type "address" || String.eqb type "bool" || is_bytesN type
  || is_uintN type || String.eqb type "tuple".

Definition unknown_type_error (type : string) : JsError :=
  Error ("Unknown event arg type " +:+ type).

(** No event of the contract's interface has the signature [topic0]. *)
Definition no_event_matches (c : Contract) (topic0 : string) : Prop :=
  Forall (fun e => String.eqb (item_type e) "event" = true ->
                   String.eqb (toLowerCase (item_signature e)) (toLowerCase topic0)
                   = false)
         (jsonInterface c).

(** A contract the registry accepts: a test contract, or one with a
    deployed address. *)
Definition registrable (ci : ContractInfo) : bool :=
  isTest ci || negb (no_address (options_address (contract ci))).

Definition not_deployed_error : JsError := Error "Contract has not been deployed".

(** [this.contracts.perpetualProxy.options.address]. *)
Definition proxy_address (c : Contracts) : option string :=
  match proxy_contract c with
  | Some proxy => options_address proxy
  | None => None
  end.

(** The confirmation race is rejected by the signal that leads from [s] to
    [s']: it leaves INITIAL for REJECTED and its promise is rejected with
    the error. *)
Definition rejects_confirmation (s s' : SendState) (error : JsError) : Prop :=
  confirmationOutcome s = INITIAL
  /\ confirmationOutcome s' = REJECTED
  /\ confirmationPromise s' = Some (PRejected error).

(** The receipt a confirmation or receipt signal carries. *)
Definition carries (sig : Signal) (receipt : TxResult) : Prop :=
  match sig with
  | SigConfirmation _ r => r = receipt
  | SigReceipt r => r = receipt
  | _ => False
  end.

Definition count_calls (p : PeerCall -> bool) (l : list PeerCall) : nat :=
  length (List.filter p l).

Definition tx_of (o : SendOptions) : TxOptions :=
  {| tx_from := so_from o; tx_gasPrice := so_gasPrice o;
     tx_gas := so_gas o; tx_value := so_value o |}.

(** The object literals [_send] returns. *)
Definition hash_result (txHash : string) : TxResult :=
  {| transactionHash := Some txHash; transactionIndex := None; blockHash := None;
     blockNumber := None; res_from := None; res_to := None;
     contractAddress := None; cumulativeGasUsed := None; gasUsed := None;
     logs := None; events := None; status := None; confirmation := None;
     gasEstimate := None; gas := None |}.

Definition both_result (txHash : string) : TxResult :=
  {| transactionHash := Some txHash; transactionIndex := None; blockHash := None;
     blockNumber := None; res_from := None; res_to := None;
     contractAddress := None; cumulativeGasUsed := None; gasUsed := None;
     logs := None; events := None; status := None;
     confirmation := Some ConfirmationPromise;
     gasEstimate := None; gas := None |}.

Definition simulate_result (estimate : Z) (limit : number) : TxResult :=
  {| transactionHash := None; transactionIndex := None; blockHash := None;
     blockNumber := None; res_from := None; res_to := None;
     contractAddress := None; cumulativeGasUsed := None; gasUsed := None;
     logs := None; events := None; status := None; confirmation := None;
     gasEstimate := Some (Num estimate); gas := Some limit |}.

(** The listener the confirmation race registers next to its error
    listener. *)
Definition success_listener (confirmations : option number) : Listener :=
  if truthy confirmations then ConfirmationOnConfirmation else ConfirmationOnReceipt.

(** A settled confirmation race: its promise is settled and its outcome
    has left INITIAL. The two agree, except that the receipt listener, which
    does not test the outcome, sets it to RESOLVED on a receipt that follows
    a rejection. *)
Inductive Settled (confirmations : option number)
  : OUTCOMES -> Promise TxResult -> Prop :=
  | settled_resolved (receipt : TxResult) :
      Settled confirmations RESOLVED (PFulfilled receipt)
  | settled_rejected (error : JsError) :
      Settled confirmations REJECTED (PRejected error)
  | settled_overwritten (error : JsError) :
      success_listener confirmations = ConfirmationOnReceipt ->
      Settled confirmations RESOLVED (PRejected error).

(** The states a submission can be in, whatever the transport emits: both
    races pending behind [await hashPromise]; the hash race rejected and the
    body thrown; and, once the body has returned, the confirmation race
    either pending or settled. The listeners stay registered throughout. *)
Inductive Shape (ct : ConfirmationType) (confirmations : option number)
  : SendState -> Prop :=
  | shape_awaiting :
      ct = Hash \/ ct = Both ->
      Shape ct confirmations
        (mkSendState INITIAL INITIAL None (Some PPending) None
           [HashOnError; HashOnTransactionHash] AwaitingHash)
  | shape_hash_rejected (error : JsError) :
      ct = Hash \/ ct = Both ->
      Shape ct confirmations
        (mkSendState REJECTED INITIAL None (Some (PRejected error)) None
           [HashOnError; HashOnTransactionHash] (Threw error))
  | shape_hash_resolved (txHash : string) :
      ct = Hash ->
      Shape ct confirmations
        (mkSendState RESOLVED INITIAL (Some txHash) (Some (PFulfilled txHash)) None
           [HashOnError; HashOnTransactionHash]
           (Returned (ReturnObject (hash_result txHash))))
  | shape_both_pending (txHash : string) :
      ct = Both ->
      Shape ct confirmations
        (mkSendState RESOLVED INITIAL (Some txHash) (Some (PFulfilled txHash))
           (Some PPending)
           [HashOnError; HashOnTransactionHash; ConfirmationOnError;
            success_listener confirmations]
           (Returned (ReturnObject (both_result txHash))))
  | shape_both_settled (txHash : string) (o : OUTCOMES) (p : Promise TxResult) :
      ct = Both -> Settled confirmations o p ->
      Shape ct confirmations
        (mkSendState RESOLVED o (Some txHash) (Some (PFulfilled txHash)) (Some p)
           [HashOnError; HashOnTransactionHash; ConfirmationOnError;
            success_listener confirmations]
           (Returned (ReturnObject (both_result txHash))))
  | shape_confirmed_pending :
      ct = Confirmed ->
      Shape ct confirmations
        (mkSendState INITIAL INITIAL None None (Some PPending)
           [ConfirmationOnError; success_listener confirmations]
           (Returned (ReturnPromise ConfirmationPromise)))
  | shape_confirmed_settled (o : OUTCOMES) (p : Promise TxResult) :
      ct = Confirmed -> Settled confirmations o p ->
      Shape ct confirmations
        (mkSendState INITIAL o None None (Some p)
           [ConfirmationOnError; success_listener confirmations]
           (Returned (ReturnPromise ConfirmationPromise)))
  | shape_not_broadcast :
      ct = Simulate ->
      Shape ct confirmations
        (mkSendState INITIAL INITIAL None None None []
           (Returned (ReturnObject empty_result))).

(* ===================================================================== *)
(** * Sample data *)
(* ===================================================================== *)

Definition transfer_event : AbiItem :=
  {| item_type := "event"; item_name := "LogDeposit";
     item_signature := "0xAA11";
     item_inputs := [ mkAbiInput "account" "address" None [];
                      mkAbiInput "amount" "uint256" None [] ] |}.

Definition sample_json (deployments : list (Z * string)) : Json :=
  {| abi := [transfer_event]; networks := list_to_map deployments |}.

(** Artifacts where every contract is deployed on network 1, and
    [P1Orders] is not deployed on network 42. *)
Definition sample_artifacts : Artifacts :=
  {| perpetualProxyJson := sample_json [(1, "0xA0"); (42, "0xB0")];
     perpetualV1Json := sample_json [];
     p1FundingOracleJson := sample_json [(1, "0xA2"); (42, "0xB2")];
     p1MakerOracleJson := sample_json [(1, "0xA3"); (42, "0xB3")];
     p1OrdersJson := sample_json [(1, "0xA4")];
     p1DeleveragingJson := sample_json [(1, "0xA5"); (42, "0xB5")];
     p1LiquidationJson := sample_json [(1, "0xA6"); (42, "0xB6")];
     p1LiquidatorProxyJson := sample_json [(1, "0xA7"); (42, "0xB7")];
     erc20Json := sample_json [] |}.

Definition sample_web3 : Web3 :=
  {| decodeLog := fun _ _ _ => Ok (VObject []) |}.

Definition sample_logs (networkId : Z) : Logs :=
  {| contracts := new_Contracts sample_artifacts networkId no_options None;
     _contractsByAddress := None;
     web3 := sample_web3 |}.

Definition sample_log (address : string) (topics : list string) : Log :=
  {| log_address := address; log_data := "0x"; log_topics := topics;
     log_logIndex := 0; log_transactionHash := "0x01";
     log_transactionIndex := 0; log_blockHash := "0x02"; log_blockNumber := 7 |}.

Definition sample_receipt (used : Z) : TxResult :=
  {| transactionHash := Some "0x01"; transactionIndex := Some 0;
     blockHash := Some "0x02"; blockNumber := Some 7; res_from := None;
     res_to := None; contractAddress := None; cumulativeGasUsed := None;
     gasUsed := Some (Num used); logs := None; events := None;
     status := Some true; confirmation := None; gasEstimate := None;
     gas := None |}.

(** A method of the contract [parent] whose peer estimates [estimate] and
    emits [sigs]. *)
Definition sample_method (parent : nat) (estimate : Result Z) (sigs : list Signal)
  : ContractSendMethod :=
  {| _parent := parent; _parent_address := Some "0xA0";
     _method_name := "deposit"; encodeABI := "0xdead";
     peer_estimateGas := fun _ => estimate;
     peer_send := fun _ => sigs |}.

Definition options_with (ct : ConfirmationType) (gasLimit : option number)
  : SendOptions :=
  {| so_from := None; so_gasPrice := None; so_gas := gasLimit; so_value := None;
     confirmations := None;
     confirmationType := Some (ConfirmationType_value ct);
     gasMultiplier := None |}.

(* ===================================================================== *)
(** * [lib/types.ts]: the Solidity structs *)
(* ===================================================================== *)

(** [BigNumber.prototype.abs] and [isPositive]; the integer zero is the
    positive zero, and [NaN] is not positive. *)
Definition BN_abs (b : BigNumber) : BigNumber :=
  match b with
  | BN z => BN (Z.abs z)
  | BN_NaN => BN_NaN
  end.

Definition BN_isPositive (b : BigNumber) : bool :=
  match b with
  | BN z => 0 <=? z
  | BN_NaN => false
  end.

(** The decimal digits of a natural number, most significant first. *)
Fixpoint to_dec_fuel (fuel : nat) (z : Z) (acc : string) : string :=
  match fuel with
  | O => acc
  | S fuel' =>
      let acc' := String (hex_digit (z mod 10)) acc in
      if z <? 10 then acc' else to_dec_fuel fuel' (z / 10) acc'
  end.

Definition to_dec (z : Z) : string :=
  to_dec_fuel (S (Z.to_nat (Z.log2 z))) z "".

(** [BigNumber.prototype.toFixed(0)] of an integer. *)
Definition BN_toFixed0 (b : BigNumber) : string :=
  match b with
  | BN z => if z <? 0 then "-" +:+ to_dec (- z) else to_dec z
  | BN_NaN => "NaN"
  end.

(** [interface SignedIntStruct]. *)
Record SignedIntStruct : Type := mkSignedIntStruct {
  si_value : string;
  si_isPositive : bool
}.

(** [interface BalanceStruct]. *)
Record BalanceStruct : Type := mkBalanceStruct {
  marginIsPositive : bool;
  positionIsPositive : bool;
  struct_margin : string;
  struct_position : string
}.

(** [bnToSoliditySignedInt], on the [BigNumber] its argument is turned
    into. *)
Definition bnToSoliditySignedInt (bn : BigNumber) : SignedIntStruct :=
  {| si_value := BN_toFixed0 (BN_abs bn);
     si_isPositive := BN_isPositive bn |}.

(** [bnFromSoliditySignedInt]. *)
Definition bnFromSoliditySignedInt (struct : SignedIntStruct) : BigNumber :=
  if si_isPositive struct then BigNumber_dec (si_value struct)
  else BN_negated (BigNumber_dec (si_value struct)).

(** [Balance.prototype.toSolidity]. *)
Definition Balance_toSolidity (b : Balance) : BalanceStruct :=
  {| marginIsPositive := BN_isPositive (margin b);
     positionIsPositive := BN_isPositive (position b);
     struct_margin := BN_toFixed0 (BN_abs (margin b));
     struct_position := BN_toFixed0 (BN_abs (position b)) |}.

(** [Balance.fromSolidity]. *)
Definition Balance_fromSolidity (struct : BalanceStruct) : Balance :=
  let marginBN := BigNumber_dec (struct_margin struct) in
  let positionBN := BigNumber_dec (struct_position struct) in
  {| margin := if marginIsPositive struct then marginBN else BN_negated marginBN;
     position := if positionIsPositive struct then positionBN
                 else BN_negated positionBN |}.

(** [BaseValue.prototype.toSolidity], [isPositive] and
    [toSoliditySignedInt], for a value of at most 18 decimal places (the
    values [scaled] can hold). *)
Definition BaseValue_toSolidity (v : BaseValue) : string :=
  BN_toFixed0 (BN_abs (scaled v)).

Definition BaseValue_isPositive (v : BaseValue) : bool :=
  BN_isPositive (scaled v).

Definition BaseValue_toSoliditySignedInt (v : BaseValue) : SignedIntStruct :=
  {| si_value := BaseValue_toSolidity v;
     si_isPositive := BaseValue_isPositive v |}.

(** [BaseValue.prototype.negated]. *)
Definition BaseValue_negated (v : BaseValue) : BaseValue :=
  {| scaled := BN_negated (scaled v) |}.

(* ===================================================================== *)
(** * Vocabulary of the further properties *)
(* ===================================================================== *)

(** What a signal does to a pending hash race, if anything. *)
Definition hash_settlement (sig : Signal) : option (Promise string) :=
  match sig with
  | SigError error => Some (PRejected error)
  | SigTransactionHash txHash => Some (PFulfilled txHash)
  | _ => None
  end.

(** What a signal does to a pending, armed confirmation race, if anything. *)
Definition confirmation_settlement (confirmations : option number) (sig : Signal)
  : option (Promise TxResult) :=
  match sig with
  | SigError error => Some (PRejected error)
  | SigConfirmation confNumber receipt =>
      if truthy confirmations && js_ge confNumber confirmations
      then Some (PFulfilled receipt) else None
  | SigReceipt receipt =>
      if truthy confirmations then None else Some (PFulfilled receipt)
  | SigTransactionHash _ => None
  end.

(** The settlement brought by the first signal that brings one. *)
Fixpoint first_settlement {A : Type} (f : Signal -> option (Promise A))
    (sigs : list Signal) : Promise A :=
  match sigs with
  | [] => PPending
  | sig :: rest =>
      match f sig with
      | Some p => p
      | None => first_settlement f rest
      end
  end.

(** The signals that follow the first [transactionHash] signal. *)
Fixpoint after_first_hash (sigs : list Signal) : list Signal :=
  match sigs with
  | [] => []
  | SigTransactionHash _ :: rest => rest
  | _ :: rest => after_first_hash rest
  end.

(** What the caller of an awaited promise gets. *)
Definition awaited_of {A : Type} (value : A -> TxResult) (p : Promise A) : Awaited :=
  match p with
  | PPending => Unsettled
  | PFulfilled a => Value (value a)
  | PRejected error => Thrown error
  end.

(** The outcome variable that goes with the state of a promise. *)
Definition outcome_of {A : Type} (p : Promise A) : OUTCOMES :=
  match p with
  | PPending => INITIAL
  | PFulfilled _ => RESOLVED
  | PRejected _ => REJECTED
  end.

(** A receipt signal. *)
Definition is_receipt (sig : Signal) : bool :=
  match sig with
  | SigReceipt _ => true
  | _ => false
  end.

(** The outcome variable of a confirmation race that was armed before
    [sigs]: it goes with the promise, except that, when the race listens to
    receipts, a receipt anywhere among the signals leaves it RESOLVED,
    also after a rejection. *)
Definition confirmation_outcome_after (confirmations : option number)
    (sigs : list Signal) : OUTCOMES :=
  if negb (truthy confirmations) && existsb is_receipt sigs then RESOLVED
  else outcome_of (first_settlement (confirmation_settlement confirmations) sigs).

(** The log [parseEvent] makes of an event of the [events] map. *)
Definition log_of_event (event : EventLog) : Log :=
  {| log_address := ev_address event;
     log_data := ev_raw_data event;
     log_topics := ev_raw_topics event;
     log_logIndex := ev_logIndex event;
     log_transactionHash := ev_transactionHash event;
     log_transactionIndex := ev_transactionIndex event;
     log_blockHash := ev_blockHash event;
     log_blockNumber := ev_blockNumber event |}.

(** Ascending log indices. *)
Definition by_logIndex (a b : Log) : Prop := log_logIndex a <= log_logIndex b.

(** The contract has the lower-cased address [k]. *)
Definition address_lower_is (c : Contract) (k : string) : bool :=
  match options_address c with
  | Some a => String.eqb (toLowerCase a) k
  | None => false
  end.

(** The last contract of the list that is not a test contract and has the
    lower-cased address [k], after [acc]. *)
Fixpoint last_registered (l : list ContractInfo) (k : string)
    (acc : option Contract) : option Contract :=
  match l with
  | [] => acc
  | ci :: rest =>
      last_registered rest k
        (if negb (isTest ci) && address_lower_is (contract ci) k
         then Some (contract ci) else acc)
  end.

(** The address of the contract with the identity [id]. *)
Definition address_of (c : Contracts) (id : nat) : option string :=
  match find_contract (contractsList c) id with
  | Some ci => options_address (contract ci)
  | None => None
  end.

(** A property name that an assignment stores as an own entry of the
    object, enumerated in the order of insertion: not [__proto__], and not
    an array index (a text of digits). *)
Definition own_key_in_order (name : string) : bool :=
  negb (String.eqb name "__proto__")
  && (String.eqb name "" || negb (all_digits name)).

(* ===================================================================== *)
(** * Properties of the event-log decoder *)
(* ===================================================================== *)

Section ParseValue.

(** The unfolding of [parseValue] on an input. *)
Lemma parseValue_unfold name type internalType components argValue :
  parseValue (mkAbiInput name type internalType components) argValue =
  if String.eqb type "bytes32"
     && name_in name ["balance"; "makerBalance"; "takerBalance"] then
    balance ← as_string argValue;
    Ok (PBalance (parseBalance balance) balance)
  else if String.eqb type "bytes32" && String.eqb name "index" then
    index ← as_string argValue; Ok (parseIndex index)
  else if String.eqb type "bytes32" && String.eqb name "flags" then
    Ok (parseOrderFlags argValue)
  else if String.eqb type "bytes32" && String.eqb name "fundingRate" then
    fundingRate ← as_string argValue; Ok (parseFundingRate fundingRate)
  else if String.eqb type "uint256" && String.eqb name "fee" then
    Ok (PBaseValue (BaseValue_fromSolidity (BigNumber_new argValue) true))
  else if String.eqb type "uint256"
          && name_in name ["price"; "oraclePrice"; "settlementPrice";
                           "triggerPrice"] then
    Ok (PBaseValue (BaseValue_fromSolidity (BigNumber_new argValue) true))
  else if String.eqb type "address" then Ok (PValue argValue)
  else if String.eqb type "bool" then Ok (PValue argValue)
  else if matches_prefix_digits "bytes" type then Ok (PValue argValue)
  else if matches_prefix_digits "uint" type then
    Ok (PBigNumber (BigNumber_new argValue))
  else if String.eqb type "tuple" then
    match internalType with
    | None => Err (Error "Unknown tuple type 'undefined' in event")
    | Some t =>
        match assoc t TUPLE_MAP with
        | None => Err (Error ("Unknown tuple type '" +:+ t +:+ "' in event"))
        | Some expectedTupleArgs =>
            let actualTupleArgs := List.map input_name components in
            if bool_decide (expectedTupleArgs = actualTupleArgs) then
              args ← parseArgs_with parseValue argValue components [];
              Ok (PArgs args)
            else Err (Error ("Arg name mismatch for tuple " +:+ t))
        end
    end
  else Err (Error ("Unknown event arg type " +:+ type)).
Proof. reflexivity. Qed.

(** A type that starts with [uint] is none of the other literal types. *)
Lemma uintN_shape type :
  is_uintN type = true ->
  String.eqb type "bytes32" = false
  /\ String.eqb type "address" = false
  /\ String.eqb type "bool" = false
  /\ matches_prefix_digits "bytes" type = false.
Proof.
  unfold is_uintN, matches_prefix_digits. intros H.
  apply andb_prop in H as [H _]. apply String.eqb_eq in H.
  destruct type as [|c1 [|c2 [|c3 [|c4 r]]]]; cbn in H; try discriminate H.
  injection H as -> -> -> ->.
  repeat split; reflexivity.
Qed.

Lemma bytes32_is_bytesN type :
  String.eqb type "bytes32" = true -> matches_prefix_digits "bytes" type = true.
Proof. intros H. apply String.eqb_eq in H. subst. reflexivity. Qed.

Lemma uint256_is_uintN type :
  String.eqb type "uint256" = true -> matches_prefix_digits "uint" type = true.
Proof. intros H. apply String.eqb_eq in H. subst. reflexivity. Qed.

(** The [uintN] case of [parseValue]. *)
Lemma parseValue_uintN name type internalType components argValue :
  is_uintN type = true ->
  fixed_point_rule name type = false ->
  parseValue (mkAbiInput name type internalType components) argValue
  = Ok (PBigNumber (BigNumber_new argValue)).
Proof.
  intros Hu Hf. rewrite parseValue_unfold.
  destruct (uintN_shape type Hu) as (Hb & Ha & Hbool & Hbytes).
  rewrite Hb, Ha, Hbool, Hbytes. cbn [andb].
  unfold fixed_point_rule in Hf. cbn [name_in existsb] in *.
  destruct (String.eqb type "uint256"); cbn [andb] in *.
  - apply orb_false_elim in Hf as [Hfee Hrest].
    rewrite Hfee.
    replace (String.eqb name "price" || (String.eqb name "oraclePrice"
               || (String.eqb name "settlementPrice"
                   || (String.eqb name "triggerPrice" || false))))
      with false.
    unfold is_uintN in Hu. rewrite Hu. reflexivity.
  - unfold is_uintN in Hu. rewrite Hu. reflexivity.
Qed.

(** A type outside the recognized ones ends in the last [throw]. *)
Lemma parseValue_unrecognized name type internalType components argValue :
  recognized_type type = false ->
  parseValue (mkAbiInput name type internalType components) argValue
  = Err (unknown_type_error type).
Proof.
  unfold recognized_type, is_bytesN, is_uintN. intros H.
  repeat (apply orb_false_elim in H as [H ?]).
  rewrite parseValue_unfold.
  destruct (String.eqb type "bytes32") eqn:E32.
  { apply bytes32_is_bytesN in E32. congruence. }
  destruct (String.eqb type "uint256") eqn:E256.
  { apply uint256_is_uintN in E256. congruence. }
  cbn [andb].
  repeat match goal with
         | Hc : ?b = false |- context [if ?b then _ else _] => rewrite Hc
         end.
  reflexivity.
Qed.

(** The literal types, [bytesN] and [uintN] never end in the last [throw]. *)
Lemma parseValue_recognized name type internalType components argValue t :
  String.eqb type "address" || String.eqb type "bool" || is_bytesN type
  || is_uintN type = true ->
  parseValue (mkAbiInput name type internalType components) argValue
  <> Err (unknown_type_error t).
Proof.
  unfold is_bytesN, is_uintN. intros H. rewrite parseValue_unfold.
  repeat match goal with
         | |- context [if ?b then _ else _] => destruct b eqn:?
         end;
    try discriminate;
    try (destruct argValue; cbn; discriminate).
  all: repeat match goal with
              | Hc : _ && _ = false |- _ => clear Hc
              end.
  all: exfalso;
    repeat match goal with
           | Hc : ?b = false, Hd : context [?b] |- _ => rewrite Hc in Hd
           end; cbn in H; try discriminate.
  all: destruct (String.eqb type "tuple"); discriminate.
Qed.

End ParseValue.

(** The order flags of the raw value 5: is-buy and is-negative-limit-fee. *)
Example parseOrderFlags_5 :
  parseOrderFlags
    (VString "0x0000000000000000000000000000000000000000000000000000000000000005")
  = POrderFlags
      (VString "0x0000000000000000000000000000000000000000000000000000000000000005")
      true false true.
Proof. reflexivity. Qed.

(** The events of a name-keyed map come out flattened and in the order of
    their log index. *)
Example sort_events_by_logIndex :
  let ev i := mkEventLog "0xA0" "0x" [] i "0x01" 0 "0x02" 7 in
  List.map ev_logIndex
    (sort_events (flatten_events [("Deposit", ManyEvents [ev 5; ev 9]);
                                  ("Withdraw", OneEvent (ev 2))]))
  = [2; 5; 9].
Proof. reflexivity. Qed.

(** C7 (as the code has it). An argument of type [uintN] (any width) that
    triggers no fixed-point rule is returned as an arbitrary-precision
    integer. A type outside [address], [bool], [bytesN], [uintN] and [tuple]
    fails with the unknown-argument-type error, and [intN] is such a type;
    [address], [bool], [bytesN] and [uintN] never fail with that error. *)
Theorem parseValue_integer_types name type internalType components argValue :
  (is_uintN type = true -> fixed_point_rule name type = false ->
   parseValue (mkAbiInput name type internalType components) argValue
   = Ok (PBigNumber (BigNumber_new argValue)))
  /\ (recognized_type type = false ->
      parseValue (mkAbiInput name type internalType components) argValue
      = Err (unknown_type_error type))
  /\ (is_intN type = true ->
      parseValue (mkAbiInput name type internalType components) argValue
      = Err (unknown_type_error type))
  /\ (String.eqb type "address" || String.eqb type "bool" || is_bytesN type
      || is_uintN type = true ->
      forall t,
        parseValue (mkAbiInput name type internalType components) argValue
        <> Err (unknown_type_error t)).
Proof.
  split; [| split; [| split]].
  - apply parseValue_uintN.
  - apply parseValue_unrecognized.
  - intros H. apply parseValue_unrecognized.
    unfold is_intN, matches_prefix_digits in H.
    apply andb_prop in H as [H _]. apply String.eqb_eq in H.
    destruct type as [|c1 [|c2 [|c3 r]]]; cbn in H; try discriminate H.
    injection H as -> -> ->. reflexivity.
  - intros H t. now apply parseValue_recognized.
Qed.

Lemma parseValue_integer_types_witness :
  parseValue (mkAbiInput "amount" "uint128" None []) (VString "42")
  = Ok (PBigNumber (BN 42))
  /\ parseValue (mkAbiInput "delta" "int8" None []) (VString "-3")
     = Err (unknown_type_error "int8")
  /\ parseValue (mkAbiInput "who" "address" None []) (VString "0xA0")
     <> Err (unknown_type_error "address").
Proof.
  split; [| split].
  - apply (proj1 (parseValue_integer_types "amount" "uint128" None []
                    (VString "42"))); reflexivity.
  - apply (proj1 (proj2 (proj2 (parseValue_integer_types "delta" "int8" None []
                                  (VString "-3"))))); reflexivity.
  - apply (proj2 (proj2 (proj2 (parseValue_integer_types "who" "address" None []
                                  (VString "0xA0"))))); reflexivity.
Defined.

(** C7 (as stated) fails on [intN]: an [int256] argument that triggers no
    packed-struct or fixed-point rule is not returned as an integer;
    [parseValue] throws the unknown-argument-type error. *)
Lemma parseValue_int256_throws :
  let input := mkAbiInput "delta" "int256" None [] in
  is_intN (input_type input) = true
  /\ packed_rule (input_name input) (input_type input) = false
  /\ fixed_point_rule (input_name input) (input_type input) = false
  /\ parseValue input (VString "-5") = Err (Error "Unknown event arg type int256")
  /\ parseValue input (VString "-5") <> Ok (PBigNumber (BigNumber_new (VString "-5"))).
Proof. cbv zeta. repeat split; try reflexivity. discriminate. Qed.

(** C10. A receipt with neither a [logs] list nor an [events] map makes
    [parseLogs] throw ['Receipt has no logs']: it does not return an empty
    sequence. *)
Theorem parseLogs_no_logs (lg : Logs) (receipt : TxResult) :
  logs receipt = None ->
  events receipt = None ->
  parseLogs lg receipt = (Err (Error "Receipt has no logs"), lg).
Proof. intros Hl He. unfold parseLogs. now rewrite Hl, He. Qed.

Lemma parseLogs_no_logs_witness :
  parseLogs (sample_logs 1) (sample_receipt 21000)
  = (Err (Error "Receipt has no logs"), sample_logs 1).
Proof. apply (parseLogs_no_logs (sample_logs 1) (sample_receipt 21000)); reflexivity. Defined.

Section Registry.

(** The loop throws exactly when it meets a contract the registry does not
    accept, and then with the not-deployed error. *)
Lemma fill_registry_thrown (l : list ContractInfo) (m : gmap string Contract) :
  snd (fill_registry l m)
  = if forallb registrable l then None else Some not_deployed_error.
Proof.
  revert m. induction l as [|ci rest IH]; intros m; [reflexivity|].
  cbn [fill_registry forallb]. unfold registrable at 1, no_address.
  destruct (isTest ci); cbn [orb andb]; [apply IH|].
  destruct (options_address (contract ci)) as [a|]; [|reflexivity].
  destruct (String.eqb a ""); cbn [negb andb]; [reflexivity | apply IH].
Qed.

Lemma contractsByAddress_fresh (lg : Logs) :
  _contractsByAddress lg = None ->
  fst (contractsByAddress lg)
  = if forallb registrable (contractsList (contracts lg))
    then Ok (fst (fill_registry (contractsList (contracts lg)) ∅))
    else Err not_deployed_error.
Proof.
  intros H. unfold contractsByAddress. rewrite H.
  pose proof (fill_registry_thrown (contractsList (contracts lg)) ∅) as Ht.
  destruct (fill_registry (contractsList (contracts lg)) ∅) as [m thrown].
  cbn [fst snd] in *. subst thrown.
  now destruct (forallb registrable (contractsList (contracts lg))).
Qed.

End Registry.

(** C6 (as the code has it). The first build of the address registry
    succeeds when every contract that is not a test contract has a deployed
    address (test contracts are skipped), and throws ['Contract has not been
    deployed'] as soon as one of them has none: the error is raised at build
    time. *)
Theorem contractsByAddress_build (lg : Logs) :
  _contractsByAddress lg = None ->
  (forallb registrable (contractsList (contracts lg)) = true ->
   exists registry, fst (contractsByAddress lg) = Ok registry)
  /\ (forallb registrable (contractsList (contracts lg)) = false ->
      fst (contractsByAddress lg) = Err not_deployed_error).
Proof.
  intros H. rewrite (contractsByAddress_fresh lg H).
  split; intros ->; eauto.
Qed.

Lemma contractsByAddress_build_witness :
  (exists registry, fst (contractsByAddress (sample_logs 1)) = Ok registry)
  /\ fst (contractsByAddress (sample_logs 42)) = Err not_deployed_error.
Proof.
  split.
  - apply (proj1 (contractsByAddress_build (sample_logs 1) eq_refl)).
    vm_compute. reflexivity.
  - apply (proj2 (contractsByAddress_build (sample_logs 42) eq_refl)).
    vm_compute. reflexivity.
Defined.

(** C6 (as stated) fails: on network 42, where [P1Orders] has no deployed
    address, building the registry throws. *)
Lemma contractsByAddress_undeployed_throws :
  let lg := sample_logs 42 in
  _contractsByAddress lg = None
  /\ (exists ci, In ci (contractsList (contracts lg))
                 /\ contract_id (contract ci) = p1Orders (contracts lg)
                 /\ isTest ci = false
                 /\ options_address (contract ci) = None)
  /\ fst (contractsByAddress lg) = Err (Error "Contract has not been deployed").
Proof.
  cbv zeta. split; [reflexivity | split].
  - eexists. split; [| split; [| split]].
    + vm_compute. do 4 right. left. reflexivity.
    + reflexivity.
    + reflexivity.
    + reflexivity.
  - vm_compute. reflexivity.
Qed.

Section ParseLog.

Lemma find_filter_none {A : Type} (f g : A -> bool) (l : list A) :
  Forall (fun e => g e = true -> f e = false) l ->
  List.find f (List.filter g l) = None.
Proof.
  induction 1 as [|e rest He _ IH]; [reflexivity|].
  cbn [List.filter]. destruct (g e) eqn:Hg; [|exact IH].
  cbn [List.find]. now rewrite (He eq_refl).
Qed.

(** A log with a first topic that no event of the contract has as its
    signature is not decoded, and nothing is thrown. *)
Lemma parseLogWithContract_none (w : Web3) (c : Contract) (log : Log)
    (topic0 : string) (topics : list string) :
  log_topics log = topic0 :: topics ->
  no_event_matches c topic0 ->
  parseLogWithContract w c log = Ok None.
Proof.
  intros Ht Hn. unfold parseLogWithContract. rewrite Ht.
  rewrite (find_filter_none _ _ _ Hn).
  now destruct (List.filter _ (jsonInterface c)).
Qed.

(** A log that the proxy stage does not claim is looked up in the
    registry: when the registry is still to be built and a contract that
    is not a test contract has no address, the lookup throws. *)
Lemma parseLog_registry_throws (lg : Logs) (log : Log) :
  _contractsByAddress lg = None ->
  forallb registrable (contractsList (contracts lg)) = false ->
  addressesAreEqual (toLowerCase (log_address log)) (proxy_address (contracts lg))
  = false ->
  fst (parseLog lg log) = Err not_deployed_error.
Proof.
  intros Hnone Hreg Hproxy.
  pose proof (contractsByAddress_fresh lg Hnone) as Hc. rewrite Hreg in Hc.
  unfold parseLog, proxy_address in *.
  destruct (contractsByAddress lg) as [r lg']. cbn [fst] in Hc. subst r.
  destruct (proxy_contract (contracts lg)) as [proxy|]; [rewrite Hproxy |];
    reflexivity.
Qed.

(** A hexadecimal address is not the name of an inherited property. *)
Lemma hex_address_not_inherited (k : string) :
  take_str 2 k = "0x" -> inherited_key k = false.
Proof.
  destruct k as [|c1 [|c2 k]]; cbn [take_str]; intros H; try discriminate.
  injection H as -> ->. reflexivity.
Qed.

End ParseLog.

(** C5 (as the code has it). When the address registry is cached or builds
    without error, a raw log from a hexadecimal address ([0x...]) whose
    lower-cased address is neither the proxy's address nor a key of the
    registry yields [null] and nothing is thrown; and such a log with a
    first topic whose address resolves (to the proxy, to a registry entry,
    or to both) but whose first topic is the signature of no event of the
    resolved contracts yields [null] as well. *)
Theorem parseLog_unresolved (lg lg' : Logs) (log : Log)
    (registry : gmap string Contract) :
  contractsByAddress lg = (Ok registry, lg') ->
  take_str 2 (toLowerCase (log_address log)) = "0x" ->
  (addressesAreEqual (toLowerCase (log_address log)) (proxy_address (contracts lg))
   = false ->
   registry !! toLowerCase (log_address log) = None ->
   parseLog lg log = (Ok None, lg'))
  /\ (forall topic0 topics,
        log_topics log = topic0 :: topics ->
        (forall proxy,
           proxy_contract (contracts lg) = Some proxy ->
           addressesAreEqual (toLowerCase (log_address log)) (options_address proxy)
           = true ->
           no_event_matches proxy topic0) ->
        (forall c,
           registry !! toLowerCase (log_address log) = Some c ->
           no_event_matches c topic0) ->
        parseLog lg log = (Ok None, lg')).
Proof.
  intros Hreg Hhex. apply hex_address_not_inherited in Hhex. split.
  - intros Hproxy Hnone. unfold parseLog, proxy_address in *.
    destruct (proxy_contract (contracts lg)) as [proxy|].
    + rewrite Hproxy, Hreg. now rewrite Hnone, Hhex.
    + rewrite Hreg. now rewrite Hnone, Hhex.
  - intros topic0 topics Ht Hp Hc. unfold parseLog.
    assert (Hfrom :
      match proxy_contract (contracts lg) with
      | Some proxy =>
          if addressesAreEqual (toLowerCase (log_address log)) (options_address proxy)
          then parseLogWithContract (web3 lg) proxy log
          else Ok None
      | None => Ok None
      end = Ok None).
    { destruct (proxy_contract (contracts lg)) as [proxy|]; [|reflexivity].
      destruct (addressesAreEqual _ (options_address proxy)) eqn:E; [|reflexivity].
      eapply parseLogWithContract_none; eauto. }
    rewrite Hfrom, Hreg.
    destruct (registry !! toLowerCase (log_address log)) as [c|] eqn:E;
      [| now rewrite Hhex].
    f_equal. eapply parseLogWithContract_none; eauto.
Qed.

Lemma parseLog_unresolved_witness :
  parseLog (sample_logs 1) (sample_log "0xFF" ["0xaa11"])
  = (Ok None, snd (contractsByAddress (sample_logs 1)))
  /\ parseLog (sample_logs 1) (sample_log "0xA0" ["0xbb22"])
     = (Ok None, snd (contractsByAddress (sample_logs 1))).
Proof.
  pose proof (parseLog_unresolved (sample_logs 1)
                (snd (contractsByAddress (sample_logs 1)))) as H.
  split.
  - refine (proj1 (H (sample_log "0xFF" ["0xaa11"])
                     (fst (fill_registry (contractsList (contracts (sample_logs 1))) ∅))
                     _ eq_refl) _ _);
      vm_compute; reflexivity.
  - refine (proj2 (H (sample_log "0xA0" ["0xbb22"])
                     (fst (fill_registry (contractsList (contracts (sample_logs 1))) ∅))
                     _ eq_refl) "0xbb22" [] eq_refl _ _).
    + vm_compute. reflexivity.
    + intros proxy Hp _. vm_compute in Hp. injection Hp as <-.
      repeat constructor.
    + intros c Hc. vm_compute in Hc. injection Hc as <-.
      repeat constructor.
Defined.

(** C5 (as stated) fails: on network 42, where [P1Orders] has no deployed
    address, a log from an address that is neither the proxy's nor in the
    registry makes [parseLog] throw, because the registry is built at this
    first lookup. *)
Lemma parseLog_unknown_address_throws :
  let lg := sample_logs 42 in
  let log := sample_log "0xFF" ["0xaa11"] in
  addressesAreEqual (toLowerCase (log_address log)) (proxy_address (contracts lg))
  = false
  /\ fst (fill_registry (contractsList (contracts lg)) ∅)
       !! toLowerCase (log_address log) = None
  /\ fst (parseLog lg log) = Err (Error "Contract has not been deployed").
Proof. cbv zeta. repeat split; vm_compute; reflexivity. Qed.

(* ===================================================================== *)
(** * Properties of the packed Balance word *)
(* ===================================================================== *)

Section BalanceWord.

Lemma length_append (a b : string) :
  String.length (a +:+ b) = (String.length a + String.length b)%nat.
Proof. induction a as [|c a IH]; simpl; [reflexivity | f_equal; exact IH]. Qed.

Lemma length_to_hex (n : nat) (z : Z) : String.length (to_hex n z) = n.
Proof.
  revert z. induction n as [|n IH]; intros z; [reflexivity|].
  cbn [to_hex]. rewrite length_append, IH. cbn. lia.
Qed.

Lemma drop_str_append (a b : string) (n k : nat) :
  String.length a = n -> drop_str (n + k) (a +:+ b) = drop_str k b.
Proof.
  revert n. induction a as [|c a IH]; intros n <-; [reflexivity|].
  cbn. now apply IH.
Qed.

Lemma take_str_append (a b : string) (n : nat) :
  String.length a = n -> take_str n (a +:+ b) = a.
Proof.
  revert n. induction a as [|c a IH]; intros n <-; cbn.
  - now destruct b.
  - f_equal. now apply IH.
Qed.

Lemma take_str_all (a : string) (n : nat) :
  String.length a = n -> take_str n a = a.
Proof.
  revert n. induction a as [|c a IH]; intros n <-; cbn; [reflexivity|].
  f_equal. now apply IH.
Qed.

(** The four fields [parseBalance] cuts out of a word. *)
Lemma word_fields (a m f p : string) :
  String.length a = 2%nat -> String.length m = 30%nat ->
  String.length f = 2%nat -> String.length p = 30%nat ->
  let word := "0x" +:+ a +:+ m +:+ f +:+ p in
  substr 2 2 word = a /\ substr 4 30 word = m
  /\ substr 34 2 word = f /\ substr 36 30 word = p.
Proof.
  intros Ha Hm Hf Hp word. unfold substr, word.
  repeat split.
  - change (drop_str 2 ("0x" +:+ a +:+ m +:+ f +:+ p)) with (a +:+ m +:+ f +:+ p).
    exact (take_str_append a _ 2 Ha).
  - change (drop_str 4 ("0x" +:+ a +:+ m +:+ f +:+ p))
      with (drop_str (2 + 0) (a +:+ m +:+ f +:+ p)).
    rewrite (drop_str_append a _ 2 0 Ha). cbn [drop_str].
    exact (take_str_append m _ 30 Hm).
  - change (drop_str 34 ("0x" +:+ a +:+ m +:+ f +:+ p))
      with (drop_str (2 + (30 + 0)) (a +:+ m +:+ f +:+ p)).
    rewrite (drop_str_append a _ 2 _ Ha), (drop_str_append m _ 30 0 Hm).
    cbn [drop_str]. exact (take_str_append f _ 2 Hf).
  - change (drop_str 36 ("0x" +:+ a +:+ m +:+ f +:+ p))
      with (drop_str (2 + (30 + (2 + 0))) (a +:+ m +:+ f +:+ p)).
    rewrite (drop_str_append a _ 2 _ Ha), (drop_str_append m _ 30 _ Hm),
      (drop_str_append f _ 2 0 Hf).
    cbn [drop_str]. exact (take_str_all p 30 Hp).
Qed.

Lemma digit_value_hex_digit (d : Z) :
  0 <= d < 16 -> digit_value (hex_digit d) = Some d.
Proof.
  intros H.
  assert (d = 0 \/ d = 1 \/ d = 2 \/ d = 3 \/ d = 4 \/ d = 5 \/ d = 6 \/ d = 7
          \/ d = 8 \/ d = 9 \/ d = 10 \/ d = 11 \/ d = 12 \/ d = 13 \/ d = 14
          \/ d = 15) as Hd by lia.
  repeat (destruct Hd as [-> | Hd]; [reflexivity|]). subst. reflexivity.
Qed.

Lemma read_digits_append (base acc : Z) (s1 s2 : string) :
  read_digits base acc (s1 +:+ s2)
  = match read_digits base acc s1 with
    | Some a => read_digits base a s2
    | None => None
    end.
Proof.
  revert acc. induction s1 as [|c s1 IH]; intros acc; simpl; [reflexivity|].
  destruct (digit_value c) as [d|]; [|reflexivity].
  destruct (d <? base); [apply IH | reflexivity].
Qed.

(** Reading back the digits that were written. *)
Lemma read_digits_to_hex (n : nat) (z acc : Z) :
  0 <= z < 16 ^ Z.of_nat n ->
  read_digits 16 acc (to_hex n z) = Some (acc * 16 ^ Z.of_nat n + z).
Proof.
  revert z acc. induction n as [|n IH]; intros z acc Hz.
  - cbn in *. f_equal. lia.
  - cbn [to_hex]. rewrite read_digits_append.
    rewrite Nat2Z.inj_succ, Z.pow_succ_r in * by lia.
    rewrite IH by (split; [apply Z.div_pos; lia | apply Z.div_lt_upper_bound; lia]).
    cbn [read_digits].
    rewrite digit_value_hex_digit by (apply Z.mod_pos_bound; lia).
    pose proof (Z.mod_pos_bound z 16 ltac:(lia)) as Hm.
    destruct (z mod 16 <? 16) eqn:E; [|lia].
    f_equal. pose proof (Z.div_mod z 16 ltac:(lia)). nia.
Qed.

Lemma BigNumber_hex_to_hex (n : nat) (z : Z) :
  0 <= z < 16 ^ Z.of_nat n -> BigNumber_hex (to_hex n z) = BN z.
Proof.
  intros Hz. unfold BigNumber_hex, read_cased.
  rewrite (read_digits_to_hex n z 0 Hz). f_equal.
Qed.

End BalanceWord.

(** C8. For every margin and position magnitude below 2^120 and every pair
    of signs, the packed word built by the layout of the specification has
    exactly 64 nibbles after its [0x], and [parseBalance] reads back the
    signed margin and position it was built from. *)
Theorem parseBalance_encodeBalance (marginMagnitude positionMagnitude : Z)
    (marginIsPositive positionIsPositive : bool) :
  0 <= marginMagnitude < 2 ^ 120 ->
  0 <= positionMagnitude < 2 ^ 120 ->
  let word := encodeBalance marginMagnitude positionMagnitude
                marginIsPositive positionIsPositive in
  nibbles word = 64%nat
  /\ parseBalance word
     = balance_of marginMagnitude positionMagnitude
         marginIsPositive positionIsPositive.
Proof.
  intros Hm Hp word.
  change (2 ^ 120) with (16 ^ Z.of_nat 30) in Hm, Hp.
  split.
  - unfold nibbles, word, encodeBalance.
    change (drop_str 2 ("0x" +:+ ?x)) with x.
    rewrite !length_append, !length_to_hex. reflexivity.
  - unfold parseBalance.
    destruct (word_fields
                (to_hex 2 (if marginIsPositive then 1 else 0))
                (to_hex 30 marginMagnitude)
                (to_hex 2 (if positionIsPositive then 1 else 0))
                (to_hex 30 positionMagnitude)
                (length_to_hex _ _) (length_to_hex _ _)
                (length_to_hex _ _) (length_to_hex _ _))
      as (Ha & Hmg & Hf & Hps).
    fold (encodeBalance marginMagnitude positionMagnitude
            marginIsPositive positionIsPositive) in Ha, Hmg, Hf, Hps.
    fold word in Ha, Hmg, Hf, Hps.
    rewrite Ha, Hmg, Hf, Hps.
    rewrite !(BigNumber_hex_to_hex 30) by assumption.
    unfold balance_of.
    destruct marginIsPositive, positionIsPositive; reflexivity.
Qed.

Lemma parseBalance_encodeBalance_witness :
  nibbles (encodeBalance 255 16 true false) = 64%nat
  /\ parseBalance (encodeBalance 255 16 true false)
     = {| margin := BN 255; position := BN (-16) |}.
Proof.
  apply (parseBalance_encodeBalance 255 16 true false); lia.
Defined.

(* ===================================================================== *)
(** * Properties of the transaction engine *)
(* ===================================================================== *)

Section Races.

Variable ct : ConfirmationType.
Variable confirmations : option number.

Create HintDb races.
#[local] Hint Constructors Shape Settled : races.

Lemma shape_start : Shape ct confirmations (start ct confirmations).
Proof using Type.
  destruct ct; cbn; unfold success_listener; auto with races.
Qed.

Lemma success_listener_cases :
  success_listener confirmations = ConfirmationOnConfirmation
  \/ success_listener confirmations = ConfirmationOnReceipt.
Proof using Type. unfold success_listener. destruct (truthy confirmations); auto. Qed.

(** Runs one signal on a state whose listeners are known. *)
Ltac run_signal :=
  unfold step, emit, resume;
  let E := fresh "E" in
  destruct success_listener_cases as [E | E];
  try (exfalso; congruence);
  rewrite ?E; cbn;
  repeat match goal with
         | |- context [js_ge ?a ?b] => destruct (js_ge a b); cbn
         end;
  unfold set_completion, set_hash, set_confirmation, off; cbn;
  fold (success_listener confirmations);
  rewrite <- ?E.

(** The cases of a state of the submission, the settled ones split by
    their settlement. *)
Ltac shape_cases Hs :=
  let Hp := fresh "Hp" in
  destruct Hs as [[-> | ->] | ? [-> | ->] | ? -> | ? ->
                 | ? ? ? -> Hp | -> | ? ? -> Hp | ->];
  try destruct Hp.

(** Every signal leads from a state of the submission to another one. *)
Lemma shape_step (s : SendState) (sig : Signal) :
  Shape ct confirmations s -> Shape ct confirmations (step ct confirmations s sig).
Proof using Type.
  intros Hs. shape_cases Hs;
    destruct sig; run_signal; solve [econstructor; eauto with races].
Qed.

Lemma shape_steps (sigs : list Signal) (s : SendState) :
  Shape ct confirmations s ->
  Shape ct confirmations (fold_left (step ct confirmations) sigs s).
Proof using Type.
  revert s. induction sigs as [|sig sigs IH]; intros s Hs; [exact Hs|].
  cbn [fold_left]. apply IH. now apply shape_step.
Qed.

Lemma run_app (before after : list Signal) :
  run ct confirmations (before ++ after)
  = fold_left (step ct confirmations) after (run ct confirmations before).
Proof using Type. unfold run. apply fold_left_app. Qed.

Lemma shape_run (sigs : list Signal) :
  Shape ct confirmations (run ct confirmations sigs).
Proof using Type. apply shape_steps, shape_start. Qed.

(** Whatever listeners are attached, the body of a listener leaves a
    settled promise as it is: [resolve] and [reject] act on a pending
    promise only. *)
Lemma listener_keeps_settled (l : Listener) (sig : Signal) (s : SendState) :
  (forall p, hashPromise s = Some p -> p <> PPending ->
             hashPromise (run_listener ct confirmations l sig s) = Some p)
  /\ (forall p, confirmationPromise s = Some p -> p <> PPending ->
                confirmationPromise (run_listener ct confirmations l sig s) = Some p).
Proof using Type.
  split; intros p Hp Hn; destruct l, sig; cbn;
    repeat match goal with
           | |- context [if ?b then _ else _] => destruct b
           end;
    cbn; rewrite ?Hp; try reflexivity; destruct p; cbn; congruence.
Qed.

(** What one more signal leaves of a settled race: the hash race keeps its
    outcome and its promise; the confirmation race keeps its promise and
    stays out of INITIAL. *)
Lemma settled_step (s : SendState) (sig : Signal) :
  Shape ct confirmations s ->
  (hashOutcome s <> INITIAL ->
   hashOutcome (step ct confirmations s sig) = hashOutcome s
   /\ hashPromise (step ct confirmations s sig) = hashPromise s)
  /\ (confirmationOutcome s <> INITIAL ->
      confirmationOutcome (step ct confirmations s sig) <> INITIAL
      /\ confirmationPromise (step ct confirmations s sig) = confirmationPromise s).
Proof using Type.
  intros Hs. shape_cases Hs;
    destruct sig; run_signal; split; intros Hne;
    solve [auto | now destruct Hne | split; [discriminate | reflexivity]].
Qed.

Lemma settled_steps (sigs : list Signal) (s : SendState) :
  Shape ct confirmations s ->
  (hashOutcome s <> INITIAL ->
   hashOutcome (fold_left (step ct confirmations) sigs s) = hashOutcome s
   /\ hashPromise (fold_left (step ct confirmations) sigs s) = hashPromise s)
  /\ (confirmationOutcome s <> INITIAL ->
      confirmationOutcome (fold_left (step ct confirmations) sigs s) <> INITIAL
      /\ confirmationPromise (fold_left (step ct confirmations) sigs s)
         = confirmationPromise s).
Proof using Type.
  revert s. induction sigs as [|sig sigs IH]; intros s Hs; [now split|].
  cbn [fold_left].
  destruct (settled_step s sig Hs) as [Hh Hc].
  destruct (IH _ (shape_step s sig Hs)) as [IHh IHc].
  split; intros H.
  - destruct (Hh H) as [E1 E2]. rewrite <- E1, <- E2. apply IHh. congruence.
  - destruct (Hc H) as [E1 E2]. rewrite <- E2. apply IHc. exact E1.
Qed.

(** The error signal on a state of the submission: when it rejects the
    confirmation race, and what it leaves of the hash race. *)
Lemma error_step (s : SendState) (error : JsError) :
  Shape ct confirmations s ->
  (rejects_confirmation s (step ct confirmations s (SigError error)) error
   <-> confirmationOutcome s = INITIAL
       /\ (ct = Confirmed \/ (ct = Both /\ hashOutcome s = RESOLVED)))
  /\ (hashOutcome s = RESOLVED ->
      hashOutcome (step ct confirmations s (SigError error)) = RESOLVED
      /\ hashPromise (step ct confirmations s (SigError error)) = hashPromise s
      /\ exists txHash, hashPromise s = Some (PFulfilled txHash)).
Proof using Type.
  intros Hs. unfold rejects_confirmation.
  shape_cases Hs;
    run_signal; (split; [split |]);
    try (intros (H1 & H2 & H3); try discriminate);
    try (intros (H1 & [H2 | [H2 H3]]); try discriminate);
    try (intros Hr; try discriminate);
    eauto 6.
Qed.

(** The receipt of a fulfilled confirmation promise was carried by the
    signal that fulfilled it. *)
Lemma receipt_step (s : SendState) (sig : Signal) (receipt : TxResult) :
  Shape ct confirmations s ->
  confirmationPromise (step ct confirmations s sig) = Some (PFulfilled receipt) ->
  confirmationPromise s = Some (PFulfilled receipt) \/ carries sig receipt.
Proof using Type.
  intros Hs. shape_cases Hs;
    destruct sig; run_signal;
    intros Hf; try discriminate; auto;
    injection Hf as <-; cbn; auto.
Qed.

Lemma receipt_steps (sigs : list Signal) (s : SendState) (receipt : TxResult) :
  Shape ct confirmations s ->
  confirmationPromise (fold_left (step ct confirmations) sigs s)
  = Some (PFulfilled receipt) ->
  confirmationPromise s = Some (PFulfilled receipt)
  \/ exists sig, In sig sigs /\ carries sig receipt.
Proof using Type.
  revert s. induction sigs as [|sig sigs IH]; intros s Hs H; [now left|].
  cbn [fold_left] in H.
  destruct (IH _ (shape_step s sig Hs) H) as [H1 | (x & Hx & Hc)].
  - destruct (receipt_step s sig receipt Hs H1) as [H2 | H2];
      [now left | right; exists sig; split; [now left | exact H2]].
  - right. exists x. split; [now right | exact Hc].
Qed.

End Races.


(** C3. In a state reached by a submission, an error signal rejects the
    confirmation race exactly when that race is still INITIAL and the mode
    is Confirmed, or the mode is Both and the hash race is RESOLVED. So in
    Both mode an error seen while the hash race is not RESOLVED does not
    reject the confirmation race, and an error seen after it rejects the
    confirmation race (if still INITIAL) while the hash race stays RESOLVED
    with its hash. *)
Theorem error_rejects_confirmation (ct : ConfirmationType)
    (confirmations : option number) (before : list Signal) (error : JsError) :
  let s := run ct confirmations before in
  let s' := step ct confirmations s (SigError error) in
  (rejects_confirmation s s' error
   <-> confirmationOutcome s = INITIAL
       /\ (ct = Confirmed \/ (ct = Both /\ hashOutcome s = RESOLVED)))
  /\ (ct = Both -> hashOutcome s <> RESOLVED -> ~ rejects_confirmation s s' error)
  /\ (ct = Both -> hashOutcome s = RESOLVED -> confirmationOutcome s = INITIAL ->
      rejects_confirmation s s' error
      /\ hashOutcome s' = RESOLVED
      /\ exists txHash, hashPromise s' = Some (PFulfilled txHash)).
Proof.
  cbv zeta.
  destruct (error_step ct confirmations _ error (shape_run ct confirmations before))
    as [Hiff Hhash].
  split; [exact Hiff | split].
  - intros -> Hn Hr. apply Hiff in Hr as [_ [Hc | [_ Hr]]]; [discriminate | auto].
  - intros Hb Hr Hc. split; [apply Hiff; auto |].
    destruct (Hhash Hr) as (E1 & E2 & txHash & E3).
    split; [exact E1 | exists txHash; congruence].
Qed.

Lemma error_rejects_confirmation_witness :
  let s := run Both None [SigTransactionHash "0x01"] in
  let s' := step Both None s (SigError (Error "reverted")) in
  rejects_confirmation s s' (Error "reverted")
  /\ hashOutcome s' = RESOLVED
  /\ exists txHash, hashPromise s' = Some (PFulfilled txHash).
Proof.
  apply (proj2 (proj2 (error_rejects_confirmation Both None
                         [SigTransactionHash "0x01"] (Error "reverted"))));
    reflexivity.
Defined.

Section Send.

(** What awaiting a broadcast call yields, mode by mode. *)
Lemma await_broadcast (method : ContractSendMethod) (ct : ConfirmationType)
    (confirmations : option number) (before : list PeerCall)
    (txOptions : TxOptions) (result : TxResult) :
  ct <> Simulate ->
  await_send (broadcast method ct confirmations before txOptions) = Value result ->
  match ct with
  | Hash => exists txHash, result = hash_result txHash
  | Confirmed =>
      exists sig, In sig (peer_send method txOptions) /\ carries sig result
  | Both => exists txHash, result = both_result txHash
  | Simulate => False
  end.
Proof.
  intros Hns. unfold await_send, broadcast. cbn [outcome races].
  pose proof (shape_run ct confirmations (peer_send method txOptions)) as Hs.
  pose proof (receipt_steps ct confirmations (peer_send method txOptions)
                (start ct confirmations) result
                (shape_start ct confirmations)) as Hr.
  fold (run ct confirmations (peer_send method txOptions)) in Hr.
  destruct Hs as [[-> | ->] | error [-> | ->] | txHash -> | txHash ->
                 | txHash o p -> Hp | -> | o p -> Hp | ->];
    cbn in *; intros H; try discriminate; try congruence;
    try (injection H as <-; eauto; fail).
  destruct Hp; try discriminate. injection H as <-.
  destruct (Hr eq_refl) as [Hd | Hex]; [discriminate | exact Hex].
Qed.

(** [send] hands over what [_send] settles to; the gas accounting does
    not touch it. *)
Lemma send_awaited (c : Contracts) (method : ContractSendMethod)
    (specificOptions : SendOptions) :
  awaited (send c method specificOptions)
  = await_send (_send method (spread (defaultOptions c) specificOptions))
  /\ peer_calls (send c method specificOptions)
     = calls (_send method (spread (defaultOptions c) specificOptions)).
Proof.
  unfold send.
  destruct (await_send _) as [result | error |]; [| now split | now split].
  destruct (_ || _); [| now split].
  destruct (find_contract _ _) as [ci|]; [| now split].
  destruct (negb (isTest ci)); now split.
Qed.

(** A call of [_send] in Simulate mode. *)
Lemma _send_Simulate (method : ContractSendMethod) (sendOptions : SendOptions) :
  ConfirmationType_of (confirmationType sendOptions) = Some Simulate ->
  _send method sendOptions
  = match estimateGas method (tx_of sendOptions) with
    | Ok estimate =>
        {| calls := [EstimateGasCall (tx_of sendOptions)];
           outcome := Returned (ReturnObject
                        (simulate_result estimate
                           (Math_floor_times estimate (gasMultiplier sendOptions))));
           races := None |}
    | Err error =>
        {| calls := [EstimateGasCall (tx_of sendOptions)];
           outcome := Threw error;
           races := None |}
    end.
Proof.
  intros Hct. unfold _send. rewrite Hct. fold (tx_of sendOptions).
  cbn [ConfirmationType_eqb ConfirmationType_value orb Z.eqb].
  destruct (estimateGas method (tx_of sendOptions)); reflexivity.
Qed.

(** [estimateGas] answers what the peer estimates. *)
Lemma estimateGas_Ok (method : ContractSendMethod) (txOptions : TxOptions)
    (estimate : Z) :
  estimateGas method txOptions = Ok estimate
  <-> peer_estimateGas method txOptions = Ok estimate.
Proof.
  unfold estimateGas.
  destruct (peer_estimateGas method txOptions); split; congruence.
Qed.

(** A call of [_send] in another mode when no gas limit was given and the
    estimation succeeds. *)
Lemma _send_estimated (method : ContractSendMethod) (sendOptions : SendOptions)
    (ct : ConfirmationType) (estimate : Z) :
  ConfirmationType_of (confirmationType sendOptions) = Some ct ->
  ct <> Simulate ->
  truthy (so_gas sendOptions) = false ->
  peer_estimateGas method (tx_of sendOptions) = Ok estimate ->
  _send method sendOptions
  = broadcast method ct (confirmations sendOptions)
      [EstimateGasCall (tx_of sendOptions)]
      (set_tx_gas (tx_of sendOptions)
         (Math_floor_times estimate (gasMultiplier sendOptions))).
Proof.
  intros Hct Hns Hgas Hest. apply estimateGas_Ok in Hest.
  unfold _send. rewrite Hct. fold (tx_of sendOptions).
  cbn [tx_of tx_gas]. rewrite Hgas. cbn [negb]. rewrite orb_true_r.
  fold (tx_of sendOptions). rewrite Hest.
  destruct ct; try reflexivity. congruence.
Qed.

(** A call of [_send] in another mode with an explicit gas limit. *)
Lemma _send_explicit_gas (method : ContractSendMethod) (sendOptions : SendOptions)
    (ct : ConfirmationType) :
  ConfirmationType_of (confirmationType sendOptions) = Some ct ->
  ct <> Simulate ->
  truthy (so_gas sendOptions) = true ->
  _send method sendOptions
  = broadcast method ct (confirmations sendOptions) [] (tx_of sendOptions).
Proof.
  intros Hct Hns Hgas. unfold _send. rewrite Hct. fold (tx_of sendOptions).
  cbn [tx_of tx_gas]. rewrite Hgas. cbn [negb]. rewrite orb_false_r.
  destruct ct; try reflexivity. congruence.
Qed.

End Send.

Section Outcome.

(** What awaiting [_send] yields, mode by mode. *)
Lemma await__send (method : ContractSendMethod) (sendOptions : SendOptions)
    (ct : ConfirmationType) (result : TxResult) :
  ConfirmationType_of (confirmationType sendOptions) = Some ct ->
  await_send (_send method sendOptions) = Value result ->
  match ct with
  | Hash => exists txHash, result = hash_result txHash
  | Confirmed =>
      exists txOptions sig,
        In sig (peer_send method txOptions) /\ carries sig result
  | Both => exists txHash, result = both_result txHash
  | Simulate =>
      exists estimate,
        result = simulate_result estimate
                   (Math_floor_times estimate (gasMultiplier sendOptions))
  end.
Proof.
  intros Hct.
  assert (ct = Simulate \/ ct <> Simulate) as [-> | Hns]
    by (destruct ct; auto; right; discriminate).
  { rewrite (_send_Simulate method sendOptions Hct).
    destruct (estimateGas method (tx_of sendOptions)) as [estimate | error];
      cbn; intros H; [| discriminate].
    injection H as <-. now exists estimate. }
  destruct (truthy (so_gas sendOptions)) eqn:Hgas.
  { rewrite (_send_explicit_gas method sendOptions ct Hct Hns Hgas). intros H.
    apply await_broadcast in H; [| exact Hns].
    destruct ct; eauto; contradiction. }
  destruct (peer_estimateGas method (tx_of sendOptions)) as [estimate | error]
    eqn:Hest.
  { rewrite (_send_estimated method sendOptions ct estimate Hct Hns Hgas Hest).
    intros H. apply await_broadcast in H; [| exact Hns].
    destruct ct; eauto; contradiction. }
  unfold _send. rewrite Hct. fold (tx_of sendOptions).
  cbn [tx_of tx_gas]. rewrite Hgas. cbn [negb]. rewrite orb_true_r.
  fold (tx_of sendOptions). unfold estimateGas. rewrite Hest. discriminate.
Qed.

End Outcome.

(** C4. A call in Simulate mode makes exactly one gas-estimation call and no
    broadcast call; when the estimation succeeds it returns
    [{gasEstimate, gas}] with [gas = Math.floor(gasEstimate * gasMultiplier)],
    and it returns nothing else. In every other mode, when no gas limit was
    given and the estimation succeeds, the call is broadcast with
    [gas = Math.floor(gasEstimate * gasMultiplier)]. The product is the
    binary64 product of the two numbers: an estimate of 100 with the
    multiplier [1.15] gives 114. *)
Theorem simulate_only_estimates (method : ContractSendMethod)
    (sendOptions : SendOptions) :
  let txOptions := tx_of sendOptions in
  let floor estimate := Math_floor_times estimate (gasMultiplier sendOptions) in
  (ConfirmationType_of (confirmationType sendOptions) = Some Simulate ->
   let r := _send method sendOptions in
   count_calls is_estimate (calls r) = 1%nat
   /\ count_calls is_broadcast (calls r) = 0%nat
   /\ (forall estimate,
         peer_estimateGas method txOptions = Ok estimate ->
         outcome r = Returned (ReturnObject (simulate_result estimate (floor estimate))))
   /\ (forall v,
         outcome r = Returned v ->
         exists estimate,
           peer_estimateGas method txOptions = Ok estimate
           /\ v = ReturnObject (simulate_result estimate (floor estimate))))
  /\ (forall ct estimate,
        ConfirmationType_of (confirmationType sendOptions) = Some ct ->
        ct <> Simulate ->
        truthy (so_gas sendOptions) = false ->
        peer_estimateGas method txOptions = Ok estimate ->
        calls (_send method sendOptions)
        = [EstimateGasCall txOptions;
           BroadcastCall (set_tx_gas txOptions (floor estimate))]).
Proof.
  cbv zeta. split.
  - intros Hct. rewrite (_send_Simulate method sendOptions Hct).
    destruct (estimateGas method (tx_of sendOptions)) as [estimate | error] eqn:E;
      cbn [calls outcome].
    + apply estimateGas_Ok in E. repeat split.
      * intros e He. congruence.
      * intros v Hv. exists estimate. split; [exact E | congruence].
    + repeat split.
      * intros e He. apply estimateGas_Ok in He. congruence.
      * intros v Hv. discriminate.
  - intros ct estimate Hct Hns Hgas Hest.
    now rewrite (_send_estimated method sendOptions ct estimate Hct Hns Hgas Hest).
Qed.

Lemma simulate_only_estimates_witness :
  let method := sample_method 0 (Ok 100001) [SigTransactionHash "0x01"] in
  let sendOptions := spread builtin_options (options_with Simulate None) in
  let tight :=
    {| so_from := None; so_gasPrice := None; so_gas := None; so_value := None;
       confirmations := None;
       confirmationType := Some (ConfirmationType_value Simulate);
       gasMultiplier := Some (binary64_of_ratio 115 100) |} in
  count_calls is_estimate (calls (_send method sendOptions)) = 1%nat
  /\ count_calls is_broadcast (calls (_send method sendOptions)) = 0%nat
  /\ outcome (_send method sendOptions)
     = Returned (ReturnObject (simulate_result 100001 (Num 150001)))
  /\ calls (_send method (spread builtin_options (options_with Hash None)))
     = [EstimateGasCall (tx_of builtin_options);
        BroadcastCall (set_tx_gas (tx_of builtin_options) (Num 150001))]
  /\ outcome (_send (sample_method 0 (Ok 100) []) tight)
     = Returned (ReturnObject (simulate_result 100 (Num 114))).
Proof.
  cbv zeta.
  pose (method := sample_method 0 (Ok 100001) [SigTransactionHash "0x01"]).
  pose proof (simulate_only_estimates method
                (spread builtin_options (options_with Simulate None))) as [HS _].
  pose proof (simulate_only_estimates method
                (spread builtin_options (options_with Hash None))) as [_ HO].
  destruct (HS eq_refl) as (H1 & H2 & H3 & _).
  split; [exact H1 | split; [exact H2 | split; [| split]]].
  - exact (H3 100001 eq_refl).
  - refine (HO Hash 100001 eq_refl _ eq_refl eq_refl). discriminate.
  - exact (proj1 (proj2 (proj2
             (proj1 (simulate_only_estimates (sample_method 0 (Ok 100) [])
                       {| so_from := None; so_gasPrice := None; so_gas := None;
                          so_value := None; confirmations := None;
                          confirmationType :=
                            Some (ConfirmationType_value Simulate);
                          gasMultiplier := Some (binary64_of_ratio 115 100) |})
                eq_refl))) 100 eq_refl).
Defined.

Section GasAccounting.

(** In Confirmed mode, a confirmed call of a contract that is not a test
    contract adds the receipt's [gasUsed] to the running total. *)
Lemma send_Confirmed_accrues (c : Contracts) (method : ContractSendMethod)
    (specificOptions : SendOptions) (receipt : TxResult) (ci : ContractInfo) :
  confirmationType (spread (defaultOptions c) specificOptions)
  = Some (ConfirmationType_value Confirmed) ->
  awaited (send c method specificOptions) = Value receipt ->
  find_contract (contractsList c) (_parent method) = Some ci ->
  isTest ci = false ->
  getCumulativeGasUsed (contracts_after (send c method specificOptions))
  = js_plus (getCumulativeGasUsed c) (gasUsed receipt).
Proof.
  intros Hct Hv Hf Ht.
  rewrite (proj1 (send_awaited c method specificOptions)) in Hv.
  unfold send. rewrite Hv, Hct, Hf, Ht. reflexivity.
Qed.

(** In Both mode the value handed to the caller has no [gasUsed]: the
    addition makes the running total [NaN]. *)
Lemma send_Both_total (c : Contracts) (method : ContractSendMethod)
    (specificOptions : SendOptions) (result : TxResult) (ci : ContractInfo) :
  confirmationType (spread (defaultOptions c) specificOptions)
  = Some (ConfirmationType_value Both) ->
  awaited (send c method specificOptions) = Value result ->
  find_contract (contractsList c) (_parent method) = Some ci ->
  isTest ci = false ->
  getCumulativeGasUsed (contracts_after (send c method specificOptions)) = NaN.
Proof.
  intros Hct Hv Hf Ht.
  rewrite (proj1 (send_awaited c method specificOptions)) in Hv.
  destruct (await__send method _ Both result ltac:(now rewrite Hct) Hv)
    as [txHash ->].
  unfold send. rewrite Hv, Hct, Hf, Ht. cbn.
  now destruct (_cumulativeGasUsed c).
Qed.

(** [resetGasUsed] brings the running total back to 0. *)
Lemma resetGasUsed_total (c : Contracts) :
  getCumulativeGasUsed (resetGasUsed c) = Num 0
  /\ getGasUsedByFunction (resetGasUsed c) = [].
Proof. now split. Qed.

(** The running total is a field of [Contracts]: no value [send] hands to
    its caller depends on it. *)
Lemma send_ignores_total (c : Contracts) (method : ContractSendMethod)
    (specificOptions : SendOptions) (total : number) (byFunction : list GasRecord) :
  awaited (send (set_gas c total byFunction) method specificOptions)
  = awaited (send c method specificOptions).
Proof.
  rewrite (proj1 (send_awaited _ method specificOptions)).
  now rewrite (proj1 (send_awaited c method specificOptions)).
Qed.

(** Two Confirmed submissions with receipts reporting 21000 and 45000. *)
Lemma two_Confirmed_submissions :
  let c0 := resetGasUsed (new_Contracts sample_artifacts 1 no_options None) in
  let submit used :=
    sample_method 0 (Ok 100000)
      [SigTransactionHash "0x01"; SigReceipt (sample_receipt used)] in
  let first := send c0 (submit 21000) (options_with Confirmed None) in
  let second := send (contracts_after first) (submit 45000)
                  (options_with Confirmed None) in
  getCumulativeGasUsed (contracts_after second) = Num 66000
  /\ getCumulativeGasUsed (resetGasUsed (contracts_after second)) = Num 0.
Proof. cbv zeta. split; vm_compute; reflexivity. Qed.

End GasAccounting.

(** C9 on the code: a submission in Both mode through the proxy contract,
    which is not a test contract. The transaction gets its hash and is then
    confirmed by a receipt reporting [gasUsed = 21000]; [send] hands over
    [{transactionHash, confirmation}], reads [gasUsed] from that object and
    adds [undefined] to the running total, which becomes [NaN] instead of
    21000. *)
Theorem send_Both_poisons_total :
  let c0 := resetGasUsed (new_Contracts sample_artifacts 1 no_options None) in
  let method :=
    sample_method 0 (Ok 100000)
      [SigTransactionHash "0x01"; SigReceipt (sample_receipt 21000)] in
  let sent := send c0 method (options_with Both None) in
  (exists ci, find_contract (contractsList c0) (_parent method) = Some ci
              /\ isTest ci = false)
  /\ awaited sent = Value (both_result "0x01")
  /\ (confirmationPromise <$> races (_send method
                                      (spread (defaultOptions c0)
                                         (options_with Both None))))
     = Some (Some (PFulfilled (sample_receipt 21000)))
  /\ getCumulativeGasUsed (contracts_after sent) = NaN
  /\ getCumulativeGasUsed (contracts_after sent) <> Num 21000.
Proof.
  cbv zeta. split; [| split; [| split; [| split]]].
  - eexists. split; [vm_compute; reflexivity | reflexivity].
  - vm_compute. reflexivity.
  - vm_compute. reflexivity.
  - vm_compute. reflexivity.
  - vm_compute. discriminate.
Qed.

(* ===================================================================== *)
(** * Further properties of the transaction engine *)
(* ===================================================================== *)

Section FirstSignal.

Variable confirmations : option number.

(** Once the hash race is settled and the body is past its [await], a
    signal changes nothing as long as only the listeners of the hash race
    are registered. *)
Lemma hash_settled_step (ct : ConfirmationType) (s : SendState) (sig : Signal) :
  listeners s = [HashOnError; HashOnTransactionHash] ->
  hashOutcome s <> INITIAL -> completion s <> AwaitingHash ->
  step ct confirmations s sig = s.
Proof using Type.
  intros Hl Ho Hc. unfold step, emit. rewrite Hl. cbn [fold_left].
  assert (is_INITIAL (hashOutcome s) = false) as Hi
    by (destruct (hashOutcome s) eqn:E; cbn; congruence).
  destruct sig; cbn [run_listener]; rewrite ?Hi;
    unfold resume; destruct (completion s); congruence.
Qed.

Lemma hash_settled_steps (ct : ConfirmationType) (s : SendState)
    (sigs : list Signal) :
  listeners s = [HashOnError; HashOnTransactionHash] ->
  hashOutcome s <> INITIAL -> completion s <> AwaitingHash ->
  fold_left (step ct confirmations) sigs s = s.
Proof using Type.
  intros Hl Ho Hc. induction sigs as [|sig sigs IH]; [reflexivity|].
  cbn [fold_left]. now rewrite hash_settled_step.
Qed.

(** A settled confirmation race under further signals: its promise stays,
    and its outcome stays unless a receipt reaches the receipt listener. *)
Lemma settled_confirmation_steps (ct : ConfirmationType) (ho : OUTCOMES)
    (tx : option string) (hp : option (Promise string)) (pre : list Listener)
    (v : SendValue) (o : OUTCOMES) (p : Promise TxResult) (sigs : list Signal) :
  (ct = Confirmed /\ pre = [])
  \/ (ct = Both /\ pre = [HashOnError; HashOnTransactionHash] /\ ho = RESOLVED) ->
  o <> INITIAL -> p <> PPending ->
  fold_left (step ct confirmations) sigs
    (mkSendState ho o tx hp (Some p)
       (pre ++ [ConfirmationOnError; success_listener confirmations])
       (Returned v))
  = mkSendState ho
      (if negb (truthy confirmations) && existsb is_receipt sigs then RESOLVED
       else o)
      tx hp (Some p)
      (pre ++ [ConfirmationOnError; success_listener confirmations])
      (Returned v).
Proof using Type.
  intros Hmode Ho Hp. revert o Ho.
  induction sigs as [|sig sigs IH]; intros o Ho.
  - cbn. now rewrite andb_false_r.
  - cbn [fold_left existsb].
    assert (step ct confirmations
              (mkSendState ho o tx hp (Some p)
                 (pre ++ [ConfirmationOnError; success_listener confirmations])
                 (Returned v)) sig
            = mkSendState ho
                (if negb (truthy confirmations) && is_receipt sig then RESOLVED
                 else o)
                tx hp (Some p)
                (pre ++ [ConfirmationOnError; success_listener confirmations])
                (Returned v)) as ->.
    { unfold success_listener.
      destruct Hmode as [[-> ->] | (-> & -> & ->)];
        destruct (truthy confirmations), sig, o, p;
        try congruence; unfold step, emit, resume; cbn;
        try match goal with
            | |- context [js_ge ?a ?b] => destruct (js_ge a b)
            end; reflexivity. }
    rewrite IH.
    + destruct (truthy confirmations), (is_receipt sig), (existsb is_receipt sigs);
        reflexivity.
    + destruct (negb (truthy confirmations) && is_receipt sig); congruence.
Qed.

(** A pending confirmation race under the signals that follow its
    arming. *)
Lemma pending_confirmation_steps (ct : ConfirmationType) (ho : OUTCOMES)
    (tx : option string) (hp : option (Promise string)) (pre : list Listener)
    (v : SendValue) (sigs : list Signal) :
  (ct = Confirmed /\ pre = [])
  \/ (ct = Both /\ pre = [HashOnError; HashOnTransactionHash] /\ ho = RESOLVED) ->
  fold_left (step ct confirmations) sigs
    (mkSendState ho INITIAL tx hp (Some PPending)
       (pre ++ [ConfirmationOnError; success_listener confirmations])
       (Returned v))
  = mkSendState ho (confirmation_outcome_after confirmations sigs) tx hp
      (Some (first_settlement (confirmation_settlement confirmations) sigs))
      (pre ++ [ConfirmationOnError; success_listener confirmations])
      (Returned v).
Proof using Type.
  intros Hmode. unfold confirmation_outcome_after.
  induction sigs as [|sig sigs IH].
  - cbn. now rewrite andb_false_r.
  - cbn [fold_left existsb first_settlement].
    destruct (confirmation_settlement confirmations sig) as [q|] eqn:Hq.
    + assert (step ct confirmations
                (mkSendState ho INITIAL tx hp (Some PPending)
                   (pre ++ [ConfirmationOnError; success_listener confirmations])
                   (Returned v)) sig
              = mkSendState ho (outcome_of q) tx hp (Some q)
                  (pre ++ [ConfirmationOnError; success_listener confirmations])
                  (Returned v)
              /\ q <> PPending
              /\ (negb (truthy confirmations) && is_receipt sig = true ->
                  outcome_of q = RESOLVED)) as (-> & Hs & Hr).
      { revert Hq. unfold success_listener, confirmation_settlement.
        destruct Hmode as [[-> ->] | (-> & -> & ->)];
          destruct (truthy confirmations), sig; cbn [andb];
          try match goal with
              | |- context [js_ge ?a ?b] => destruct (js_ge a b) eqn:Hge
              end;
          intros Hq; try discriminate; injection Hq as <-;
          unfold step, emit, resume; cbn; rewrite ?Hge;
          (split; [reflexivity | split; [discriminate | ]]);
          cbn; intros; congruence. }
      rewrite settled_confirmation_steps;
        [| exact Hmode | destruct q; cbn; congruence | exact Hs].
      destruct (negb (truthy confirmations)) eqn:Ht; cbn [andb] in *;
        [| reflexivity].
      destruct (is_receipt sig); cbn [orb]; [| reflexivity].
      rewrite (Hr eq_refl). now destruct (existsb is_receipt sigs).
    + assert (step ct confirmations
                (mkSendState ho INITIAL tx hp (Some PPending)
                   (pre ++ [ConfirmationOnError; success_listener confirmations])
                   (Returned v)) sig
              = mkSendState ho INITIAL tx hp (Some PPending)
                  (pre ++ [ConfirmationOnError; success_listener confirmations])
                  (Returned v)
              /\ negb (truthy confirmations) && is_receipt sig = false)
        as (-> & Hn).
      { revert Hq. unfold success_listener, confirmation_settlement.
        destruct Hmode as [[-> ->] | (-> & -> & ->)];
          destruct (truthy confirmations), sig; cbn [andb];
          try match goal with
              | |- context [js_ge ?a ?b] => destruct (js_ge a b) eqn:Hge
              end;
          intros Hq; try discriminate;
          unfold step, emit, resume; cbn; rewrite ?Hge; split; reflexivity. }
      rewrite IH.
      destruct (negb (truthy confirmations)); cbn [andb] in *; [| reflexivity].
      now rewrite Hn.
Qed.

(** The state of a submission in Confirmed mode after any signals. *)
Lemma run_Confirmed (sigs : list Signal) :
  run Confirmed confirmations sigs
  = mkSendState INITIAL (confirmation_outcome_after confirmations sigs) None None
      (Some (first_settlement (confirmation_settlement confirmations) sigs))
      [ConfirmationOnError; success_listener confirmations]
      (Returned (ReturnPromise ConfirmationPromise)).
Proof using Type.
  exact (pending_confirmation_steps Confirmed INITIAL None None []
           (ReturnPromise ConfirmationPromise) sigs
           (or_introl (conj eq_refl eq_refl))).
Qed.

(** The state of a submission in Both mode after its hash, and any
    signals after that. *)
Lemma run_Both_pending (txHash : string) (sigs : list Signal) :
  fold_left (step Both confirmations) sigs
    (mkSendState RESOLVED INITIAL (Some txHash) (Some (PFulfilled txHash))
       (Some PPending)
       [HashOnError; HashOnTransactionHash; ConfirmationOnError;
        success_listener confirmations]
       (Returned (ReturnObject (both_result txHash))))
  = mkSendState RESOLVED (confirmation_outcome_after confirmations sigs)
      (Some txHash) (Some (PFulfilled txHash))
      (Some (first_settlement (confirmation_settlement confirmations) sigs))
      [HashOnError; HashOnTransactionHash; ConfirmationOnError;
       success_listener confirmations]
      (Returned (ReturnObject (both_result txHash))).
Proof using Type.
  exact (pending_confirmation_steps Both RESOLVED (Some txHash)
           (Some (PFulfilled txHash)) [HashOnError; HashOnTransactionHash]
           (ReturnObject (both_result txHash)) sigs
           (or_intror (conj eq_refl (conj eq_refl eq_refl)))).
Qed.

(** The hash race of a submission in Hash or Both mode: nothing happens
    before the first error or hash; an error ends the submission; a hash
    lets the body go on with the signals that follow. *)
Lemma run_hash_race (ct : ConfirmationType) (sigs : list Signal) :
  ct = Hash \/ ct = Both ->
  run ct confirmations sigs
  = match first_settlement hash_settlement sigs with
    | PPending => start ct confirmations
    | PRejected error =>
        mkSendState REJECTED INITIAL None (Some (PRejected error)) None
          [HashOnError; HashOnTransactionHash] (Threw error)
    | PFulfilled txHash =>
        fold_left (step ct confirmations) (after_first_hash sigs)
          (step ct confirmations (start ct confirmations)
             (SigTransactionHash txHash))
    end.
Proof using Type.
  intros Hct. unfold run.
  induction sigs as [|sig sigs IH]; [reflexivity|].
  cbn [fold_left first_settlement after_first_hash].
  destruct sig as [error | txHash | confNumber receipt | receipt];
    cbn [hash_settlement]; try reflexivity.
  - destruct Hct as [-> | ->];
      (rewrite hash_settled_steps by first [reflexivity | simpl; congruence]);
      reflexivity.
  - destruct Hct as [-> | ->]; exact IH.
  - destruct Hct as [-> | ->]; exact IH.
Qed.

End FirstSignal.

Section Delivery.

(** What awaiting a broadcast call yields: the first settling signal of
    the race the caller waits for decides it. *)
Lemma await_broadcast_settles (method : ContractSendMethod)
    (ct : ConfirmationType) (confirmations : option number)
    (before : list PeerCall) (txOptions : TxOptions) :
  ct <> Simulate ->
  await_send (broadcast method ct confirmations before txOptions)
  = match ct with
    | Hash =>
        awaited_of hash_result
          (first_settlement hash_settlement (peer_send method txOptions))
    | Confirmed =>
        awaited_of (fun receipt => receipt)
          (first_settlement (confirmation_settlement confirmations)
             (peer_send method txOptions))
    | Both =>
        awaited_of both_result
          (first_settlement hash_settlement (peer_send method txOptions))
    | Simulate => Unsettled
    end.
Proof.
  intros Hns. unfold await_send, broadcast. cbn [outcome races].
  destruct ct; [| | | congruence].
  - rewrite (run_hash_race confirmations Hash _ (or_introl eq_refl)).
    destruct (first_settlement hash_settlement (peer_send method txOptions))
      as [| txHash | error]; [reflexivity | | reflexivity].
    now rewrite hash_settled_steps by first [reflexivity | simpl; congruence].
  - rewrite run_Confirmed. cbn [completion confirmationPromise].
    now destruct (first_settlement _ _).
  - rewrite (run_hash_race confirmations Both _ (or_intror eq_refl)).
    destruct (first_settlement hash_settlement (peer_send method txOptions))
      as [| txHash | error]; [reflexivity | | reflexivity].
    change (step Both confirmations (start Both confirmations)
              (SigTransactionHash txHash))
      with (mkSendState RESOLVED INITIAL (Some txHash) (Some (PFulfilled txHash))
              (Some PPending)
              [HashOnError; HashOnTransactionHash; ConfirmationOnError;
               success_listener confirmations]
              (Returned (ReturnObject (both_result txHash)))).
    now rewrite run_Both_pending.
Qed.

(** A call of [_send] that reached the peer's [send] is a broadcast of
    those options, in a mode other than Simulate. *)
Lemma _send_broadcast_call (method : ContractSendMethod) (sendOptions : SendOptions)
    (ct : ConfirmationType) (txOptions : TxOptions) :
  ConfirmationType_of (confirmationType sendOptions) = Some ct ->
  In (BroadcastCall txOptions) (calls (_send method sendOptions)) ->
  ct <> Simulate
  /\ exists before,
       _send method sendOptions
       = broadcast method ct (confirmations sendOptions) before txOptions.
Proof.
  intros Hct.
  assert (ct = Simulate \/ ct <> Simulate) as [-> | Hns]
    by (destruct ct; auto; right; discriminate).
  { rewrite (_send_Simulate method sendOptions Hct).
    destruct (estimateGas method (tx_of sendOptions)); cbn;
      intros [H | []]; discriminate. }
  destruct (truthy (so_gas sendOptions)) eqn:Hgas.
  { rewrite (_send_explicit_gas method sendOptions ct Hct Hns Hgas).
    cbn. intros [H | []]. injection H as <-. split; [exact Hns | now exists []]. }
  destruct (peer_estimateGas method (tx_of sendOptions)) as [estimate | error]
    eqn:Hest.
  { rewrite (_send_estimated method sendOptions ct estimate Hct Hns Hgas Hest).
    cbn. intros [H | [H | []]]; [discriminate |]. injection H as <-.
    split; [exact Hns | now exists [EstimateGasCall (tx_of sendOptions)]]. }
  unfold _send. rewrite Hct. fold (tx_of sendOptions).
  cbn [tx_of tx_gas]. rewrite Hgas. cbn [negb]. rewrite orb_true_r.
  fold (tx_of sendOptions). unfold estimateGas. rewrite Hest.
  cbn. intros [H | []]. discriminate.
Qed.

End Delivery.

(** C2. In each of the four modes, the value [send] hands to its caller has
    the fields of that mode and no other: Hash gives [{transactionHash}];
    Confirmed gives the receipt a signal of the transmission carried; Both
    gives [{transactionHash, confirmation}], the second being the handle on
    the confirmation promise; Simulate gives [{gasEstimate, gas}]. And the
    value is handed over: a call that was broadcast yields it as soon as
    the transmission emits a hash (Hash, Both) or the settling receipt
    (Confirmed) before any error, a call is broadcast whenever it has a gas
    limit or its estimation succeeds, and a Simulate call yields its value
    whenever the estimation succeeds. The mode is the one the caller gives
    with the call, and the default of the object when the call gives
    none. *)
Theorem send_outcome_fields (c : Contracts) (method : ContractSendMethod)
    (specificOptions : SendOptions) (ct : ConfirmationType) :
  let sendOptions := spread (defaultOptions c) specificOptions in
  let sent := send c method specificOptions in
  ConfirmationType_of (confirmationType sendOptions) = Some ct ->
  (forall result,
     awaited sent = Value result ->
     match ct with
     | Hash =>
         (exists txHash, result = hash_result txHash)
         /\ fields result = ["transactionHash"]
     | Confirmed =>
         exists txOptions sig,
           In sig (peer_send method txOptions) /\ carries sig result
     | Both =>
         (exists txHash, result = both_result txHash)
         /\ fields result = ["transactionHash"; "confirmation"]
     | Simulate =>
         (exists estimate,
            result = simulate_result estimate
                       (Math_floor_times estimate (gasMultiplier sendOptions)))
         /\ fields result = ["gasEstimate"; "gas"]
     end)
  /\ (forall txOptions,
        In (BroadcastCall txOptions) (peer_calls sent) ->
        let sigs := peer_send method txOptions in
        match ct with
        | Hash =>
            awaited sent
            = awaited_of hash_result (first_settlement hash_settlement sigs)
        | Confirmed =>
            awaited sent
            = awaited_of (fun receipt => receipt)
                (first_settlement
                   (confirmation_settlement (confirmations sendOptions)) sigs)
        | Both =>
            awaited sent
            = awaited_of both_result (first_settlement hash_settlement sigs)
        | Simulate => False
        end)
  /\ (ct <> Simulate ->
      truthy (so_gas sendOptions) = true
      \/ (exists estimate,
            peer_estimateGas method (tx_of sendOptions) = Ok estimate) ->
      exists txOptions, In (BroadcastCall txOptions) (peer_calls sent))
  /\ (ct = Simulate ->
      forall estimate,
        peer_estimateGas method (tx_of sendOptions) = Ok estimate ->
        awaited sent
        = Value (simulate_result estimate
                   (Math_floor_times estimate (gasMultiplier sendOptions))))
  /\ confirmationType sendOptions
     = match confirmationType specificOptions with
       | Some raw => Some raw
       | None => confirmationType (defaultOptions c)
       end.
Proof.
  intros sendOptions sent Hct.
  destruct (send_awaited c method specificOptions) as [Ha Hc].
  fold sendOptions in Ha, Hc. fold sent in Ha, Hc.
  split; [| split; [| split; [| split]]];
    [| | | | now destruct (confirmationType specificOptions) eqn:E;
             unfold sendOptions, spread, spread_field; cbn; rewrite E].
  - intros result H. rewrite Ha in H.
    pose proof (await__send method sendOptions ct result Hct H) as Hr.
    destruct ct; [| exact Hr | |]; split; try exact Hr;
      destruct Hr as [x ->]; reflexivity.
  - intros txOptions Hin. rewrite Hc in Hin. cbv zeta.
    destruct (_send_broadcast_call method sendOptions ct txOptions Hct Hin)
      as [Hns [before E]].
    rewrite Ha, E, (await_broadcast_settles _ _ _ _ _ Hns).
    destruct ct; [reflexivity | reflexivity | reflexivity | congruence].
  - intros Hns Hgo. rewrite Hc.
    destruct (truthy (so_gas sendOptions)) eqn:Hgas.
    + rewrite (_send_explicit_gas method sendOptions ct Hct Hns Hgas).
      eexists. cbn. left. reflexivity.
    + destruct Hgo as [Hgo | [estimate Hest]]; [discriminate |].
      rewrite (_send_estimated method sendOptions ct estimate Hct Hns Hgas Hest).
      eexists. cbn. right. left. reflexivity.
  - intros -> estimate Hest. rewrite Ha.
    rewrite (_send_Simulate method sendOptions Hct).
    apply estimateGas_Ok in Hest. now rewrite Hest.
Qed.

Lemma send_outcome_fields_witness :
  let c := new_Contracts sample_artifacts 1 no_options None in
  let receipt := sample_receipt 21000 in
  let method := sample_method 0 (Ok 100000)
                  [SigTransactionHash "0x01"; SigReceipt receipt] in
  awaited (send c method (options_with Hash None)) = Value (hash_result "0x01")
  /\ awaited (send c method (options_with Confirmed None)) = Value receipt
  /\ awaited (send c method (options_with Both None)) = Value (both_result "0x01")
  /\ awaited (send c method (options_with Simulate None))
     = Value (simulate_result 100000 (Num 150000)).
Proof.
  cbv zeta.
  pose (c := new_Contracts sample_artifacts 1 no_options None).
  pose (method := sample_method 0 (Ok 100000)
                    [SigTransactionHash "0x01"; SigReceipt (sample_receipt 21000)]).
  pose (broadcast_options :=
          set_tx_gas (tx_of (spread (defaultOptions c) (options_with Hash None)))
            (Num 150000)).
  split; [| split; [| split]].
  - exact (proj1 (proj2 (send_outcome_fields c method (options_with Hash None)
                           Hash eq_refl))
             broadcast_options (or_intror (or_introl eq_refl))).
  - exact (proj1 (proj2 (send_outcome_fields c method (options_with Confirmed None)
                           Confirmed eq_refl))
             broadcast_options (or_intror (or_introl eq_refl))).
  - exact (proj1 (proj2 (send_outcome_fields c method (options_with Both None)
                           Both eq_refl))
             broadcast_options (or_intror (or_introl eq_refl))).
  - exact (proj1 (proj2 (proj2 (proj2 (send_outcome_fields c method
                                         (options_with Simulate None) Simulate
                                         eq_refl))))
             eq_refl 100000 eq_refl).
Defined.


(** X1. In Hash mode the first error or hash signal of the transmission
    decides the call, whatever comes before or after it: a hash first and
    [_send] returns [{transactionHash}] with that hash; an error first and
    it throws that error; neither and it stays pending. Confirmation and
    receipt signals are not listened to, and the confirmation race is never
    armed. *)
Theorem Hash_mode_first_signal (confirmations : option number)
    (method : ContractSendMethod) (before : list PeerCall) (txOptions : TxOptions) :
  let sigs := peer_send method txOptions in
  let p := first_settlement hash_settlement sigs in
  hashPromise (run Hash confirmations sigs) = Some p
  /\ hashOutcome (run Hash confirmations sigs) = outcome_of p
  /\ confirmationPromise (run Hash confirmations sigs) = None
  /\ await_send (broadcast method Hash confirmations before txOptions)
     = awaited_of hash_result p.
Proof.
  cbv zeta. unfold await_send, broadcast. cbn [outcome races].
  rewrite (run_hash_race confirmations Hash _ (or_introl eq_refl)).
  destruct (first_settlement hash_settlement (peer_send method txOptions))
    as [| txHash | error].
  - repeat split.
  - rewrite hash_settled_steps by first [reflexivity | simpl; congruence].
    repeat split.
  - repeat split.
Qed.

(** X2. In Confirmed mode the first signal that settles the confirmation
    race decides the call: an error rejects it; with a truthy
    [confirmations] option, a confirmation signal whose number reaches it
    fulfils it with its receipt, and receipt signals and lower confirmation
    counts are ignored; with a falsy one, a receipt signal fulfils it and
    confirmation signals are ignored. The hash race is never armed. The
    outcome variable goes with the promise, except that a receipt that
    follows a rejection still runs the receipt listener, which does not
    test the outcome: the variable then says RESOLVED while the promise
    stays rejected. *)
Theorem Confirmed_mode_first_signal (confirmations : option number)
    (method : ContractSendMethod) (before : list PeerCall) (txOptions : TxOptions) :
  let sigs := peer_send method txOptions in
  let p := first_settlement (confirmation_settlement confirmations) sigs in
  confirmationPromise (run Confirmed confirmations sigs) = Some p
  /\ confirmationOutcome (run Confirmed confirmations sigs)
     = (if negb (truthy confirmations) && existsb is_receipt sigs then RESOLVED
        else outcome_of p)
  /\ hashPromise (run Confirmed confirmations sigs) = None
  /\ await_send (broadcast method Confirmed confirmations before txOptions)
     = awaited_of (fun receipt => receipt) p.
Proof.
  cbv zeta. unfold await_send, broadcast. cbn [outcome races].
  rewrite run_Confirmed.
  cbn [confirmationPromise confirmationOutcome hashPromise completion].
  repeat split.
Qed.

(** X3. In Both mode the first error or hash signal decides what [_send]
    gives: an error first and it throws, the confirmation race never being
    armed; a hash first and it returns [{transactionHash, confirmation}].
    The confirmation promise is then settled by the first settling signal
    among those that follow the hash: what was emitted before the hash is
    not seen by the confirmation race. *)
Theorem Both_mode_first_signals (confirmations : option number)
    (method : ContractSendMethod) (before : list PeerCall) (txOptions : TxOptions) :
  let sigs := peer_send method txOptions in
  let p := first_settlement hash_settlement sigs in
  hashPromise (run Both confirmations sigs) = Some p
  /\ await_send (broadcast method Both confirmations before txOptions)
     = awaited_of both_result p
  /\ confirmationPromise (run Both confirmations sigs)
     = match p with
       | PFulfilled _ =>
           Some (first_settlement (confirmation_settlement confirmations)
                   (after_first_hash sigs))
       | _ => None
       end.
Proof.
  cbv zeta. unfold await_send, broadcast. cbn [outcome races].
  rewrite (run_hash_race confirmations Both _ (or_intror eq_refl)).
  destruct (first_settlement hash_settlement (peer_send method txOptions))
    as [| txHash | error]; [repeat split | | repeat split].
  change (step Both confirmations (start Both confirmations)
            (SigTransactionHash txHash))
    with (mkSendState RESOLVED INITIAL (Some txHash) (Some (PFulfilled txHash))
            (Some PPending)
            [HashOnError; HashOnTransactionHash; ConfirmationOnError;
             success_listener confirmations]
            (Returned (ReturnObject (both_result txHash)))).
  rewrite run_Both_pending. repeat split.
Qed.

(** X4. A confirmation type that is none of the four values of the enum
    makes [send] throw ['Invalid confirmation type: ...'] before any call
    reaches the peer, and the [Contracts] object is left as it was. *)
Theorem send_invalid_confirmation_type (c : Contracts)
    (method : ContractSendMethod) (specificOptions : SendOptions) :
  let sendOptions := spread (defaultOptions c) specificOptions in
  ConfirmationType_of (confirmationType sendOptions) = None ->
  awaited (send c method specificOptions)
  = Thrown (Error ("Invalid confirmation type: "
                   +:+ show_raw (confirmationType sendOptions)))
  /\ peer_calls (send c method specificOptions) = []
  /\ contracts_after (send c method specificOptions) = c.
Proof.
  intros sendOptions H. unfold send, _send. fold sendOptions. rewrite H.
  cbn. repeat split.
Qed.

Lemma send_invalid_confirmation_type_witness :
  let c := new_Contracts sample_artifacts 1 no_options None in
  let method := sample_method 0 (Ok 100000) [SigTransactionHash "0x01"] in
  let bad := {| so_from := None; so_gasPrice := None; so_gas := None;
                so_value := None; confirmations := None;
                confirmationType := Some 7; gasMultiplier := None |} in
  awaited (send c method bad) = Thrown (Error "Invalid confirmation type: 7")
  /\ peer_calls (send c method bad) = []
  /\ contracts_after (send c method bad) = c.
Proof.
  cbv zeta.
  exact (send_invalid_confirmation_type
           (new_Contracts sample_artifacts 1 no_options None)
           (sample_method 0 (Ok 100000) [SigTransactionHash "0x01"])
           {| so_from := None; so_gasPrice := None; so_gas := None;
              so_value := None; confirmations := None;
              confirmationType := Some 7; gasMultiplier := None |}
           eq_refl).
Defined.

(** X5. When [_send] asks for an estimate (Simulate mode, or no gas limit
    given) and the peer's estimation fails, [_send] throws the peer's error
    with [transactionData = {from, value, data, to}] attached (the sender
    and value of the options, the encoded call, the contract's address); the
    peer has received that one estimation call and the call is not
    broadcast. *)
Theorem estimation_failure_is_thrown (method : ContractSendMethod)
    (sendOptions : SendOptions) (ct : ConfirmationType) (error : JsError) :
  ConfirmationType_of (confirmationType sendOptions) = Some ct ->
  ct = Simulate \/ truthy (so_gas sendOptions) = false ->
  peer_estimateGas method (tx_of sendOptions) = Err error ->
  outcome (_send method sendOptions)
  = Threw {| message := message error;
             transactionData :=
               Some {| td_from := so_from sendOptions;
                       td_value := so_value sendOptions;
                       td_data := encodeABI method;
                       td_to := _parent_address method |} |}
  /\ calls (_send method sendOptions) = [EstimateGasCall (tx_of sendOptions)]
  /\ races (_send method sendOptions) = None.
Proof.
  intros Hct Hneed Hest. unfold _send. rewrite Hct. fold (tx_of sendOptions).
  assert (ConfirmationType_eqb ct Simulate
          || negb (truthy (tx_gas (tx_of sendOptions))) = true) as ->.
  { destruct Hneed as [-> | Hg]; [reflexivity|].
    cbn [tx_of tx_gas]. rewrite Hg. apply orb_true_r. }
  unfold estimateGas. rewrite Hest. repeat split.
Qed.

Lemma estimation_failure_is_thrown_witness :
  let method := sample_method 0 (Err (Error "execution reverted")) [] in
  let sendOptions := spread builtin_options (options_with Hash None) in
  message <$> match outcome (_send method sendOptions) with
              | Threw e => Some e
              | _ => None
              end = Some "execution reverted"
  /\ calls (_send method sendOptions) = [EstimateGasCall (tx_of sendOptions)].
Proof.
  cbv zeta.
  destruct (estimation_failure_is_thrown
              (sample_method 0 (Err (Error "execution reverted")) [])
              (spread builtin_options (options_with Hash None))
              Hash (Error "execution reverted") eq_refl (or_intror eq_refl) eq_refl)
    as (H1 & H2 & _).
  rewrite H1, H2. split; reflexivity.
Defined.

(** X6. Outside Simulate mode, a call with a truthy gas limit is broadcast
    with the options as given: no estimation call is made and the limit is
    not multiplied. *)
Theorem explicit_gas_skips_estimation (method : ContractSendMethod)
    (sendOptions : SendOptions) (ct : ConfirmationType) :
  ConfirmationType_of (confirmationType sendOptions) = Some ct ->
  ct <> Simulate ->
  truthy (so_gas sendOptions) = true ->
  calls (_send method sendOptions) = [BroadcastCall (tx_of sendOptions)]
  /\ tx_gas (tx_of sendOptions) = so_gas sendOptions
  /\ count_calls is_estimate (calls (_send method sendOptions)) = 0%nat.
Proof.
  intros Hct Hns Hgas.
  rewrite (_send_explicit_gas method sendOptions ct Hct Hns Hgas).
  repeat split.
Qed.

Lemma explicit_gas_skips_estimation_witness :
  let method := sample_method 0 (Ok 100000) [SigTransactionHash "0x01"] in
  let sendOptions := spread builtin_options (options_with Both (Some (Num 250000))) in
  calls (_send method sendOptions) = [BroadcastCall (tx_of sendOptions)]
  /\ tx_gas (tx_of sendOptions) = Some (Num 250000).
Proof.
  cbv zeta.
  destruct (explicit_gas_skips_estimation
              (sample_method 0 (Ok 100000) [SigTransactionHash "0x01"])
              (spread builtin_options (options_with Both (Some (Num 250000))))
              Both eq_refl ltac:(discriminate) eq_refl) as (H1 & H2 & _).
  split; [exact H1 | exact H2].
Defined.

(** X7. [send] touches nothing of the [Contracts] object but the two gas
    fields, and it leaves those as they were when the mode is neither
    Confirmed nor Both, when the call hands no value to the caller, or when
    the method's contract is a test contract or is not in [contractsList]. *)
Theorem send_gas_frame (c : Contracts) (method : ContractSendMethod)
    (specificOptions : SendOptions) :
  let sendOptions := spread (defaultOptions c) specificOptions in
  let c' := contracts_after (send c method specificOptions) in
  (contractsList c' = contractsList c
   /\ defaultOptions c' = defaultOptions c
   /\ env_DEBUG_GAS c' = env_DEBUG_GAS c)
  /\ (raw_is (confirmationType sendOptions) Confirmed
      || raw_is (confirmationType sendOptions) Both = false
      \/ (forall result, awaited (send c method specificOptions) <> Value result)
      \/ find_contract (contractsList c) (_parent method) = None
      \/ (exists ci, find_contract (contractsList c) (_parent method) = Some ci
                     /\ isTest ci = true) ->
      c' = c).
Proof.
  cbv zeta. unfold send.
  destruct (await_send _) as [result | error |];
    [| split; [repeat split | reflexivity] | split; [repeat split | reflexivity]].
  destruct (_ || _); [| split; [repeat split | reflexivity]].
  destruct (find_contract _ _) as [ci|]; [| split; [repeat split | reflexivity]].
  destruct (isTest ci) eqn:Ht; cbn [negb]; [split; [repeat split | reflexivity] |].
  split; [repeat split |].
  intros [H | [H | [H | (ci' & H1 & H2)]]]; try discriminate.
  - exfalso. apply (H result). reflexivity.
  - injection H1 as <-. congruence.
Qed.

Lemma send_gas_frame_witness :
  let c := new_Contracts sample_artifacts 1 no_options None in
  let method := sample_method 0 (Ok 100000) [SigTransactionHash "0x01"] in
  contracts_after (send c method (options_with Hash None)) = c.
Proof.
  cbv zeta.
  apply (proj2 (send_gas_frame (new_Contracts sample_artifacts 1 no_options None)
                  (sample_method 0 (Ok 100000) [SigTransactionHash "0x01"])
                  (options_with Hash None))).
  left. reflexivity.
Defined.

(** X8. When a call in Confirmed or Both mode, through a contract that is
    not a test contract, hands a value to its caller, the list returned by
    [getGasUsedByFunction] grows by exactly one record, the value's
    [gasUsed] under the method's name, if the environment variable
    DEBUG_GAS_USAGE_BY_FUNCTION is ['true'], and does not change otherwise;
    the running total has the value's [gasUsed] added in both cases. *)
Theorem send_gas_record (c : Contracts) (method : ContractSendMethod)
    (specificOptions : SendOptions) (result : TxResult) (ci : ContractInfo) :
  let sendOptions := spread (defaultOptions c) specificOptions in
  let c' := contracts_after (send c method specificOptions) in
  raw_is (confirmationType sendOptions) Confirmed
  || raw_is (confirmationType sendOptions) Both = true ->
  awaited (send c method specificOptions) = Value result ->
  find_contract (contractsList c) (_parent method) = Some ci ->
  isTest ci = false ->
  getGasUsedByFunction c'
  = getGasUsedByFunction c
    ++ (if string_is (env_DEBUG_GAS c) "true"
        then [ {| rec_gasUsed := gasUsed result;
                  rec_name := _method_name method |} ]
        else [])
  /\ getCumulativeGasUsed c' = js_plus (getCumulativeGasUsed c) (gasUsed result).
Proof.
  cbv zeta. intros Hm Hv Hf Ht.
  rewrite (proj1 (send_awaited c method specificOptions)) in Hv.
  unfold send. rewrite Hv, Hm, Hf, Ht. cbn.
  destruct (string_is (env_DEBUG_GAS c) "true"); split; try reflexivity.
  unfold getGasUsedByFunction. now rewrite app_nil_r.
Qed.

Lemma send_gas_record_witness :
  let c := new_Contracts sample_artifacts 1 no_options (Some "true") in
  let method := sample_method 0 (Ok 100000) [SigReceipt (sample_receipt 21000)] in
  let c' := contracts_after (send c method (options_with Confirmed None)) in
  getGasUsedByFunction c'
  = [ {| rec_gasUsed := Some (Num 21000); rec_name := "deposit" |} ]
  /\ getCumulativeGasUsed c' = Num 21000.
Proof.
  cbv zeta.
  exact (send_gas_record (new_Contracts sample_artifacts 1 no_options (Some "true"))
           (sample_method 0 (Ok 100000) [SigReceipt (sample_receipt 21000)])
           (options_with Confirmed None) (sample_receipt 21000)
           (mkContractInfo
              (mkContract 0 [transfer_event] (Some "0xA0"))
              (sample_json [(1, "0xA0"); (42, "0xB0")]) false)
           eq_refl eq_refl eq_refl eq_refl).
Defined.

(* ===================================================================== *)
(** * Further properties of the contracts and of the address registry *)
(* ===================================================================== *)

(** X9. Whatever the artifacts and the network, the constructor gives the
    implementation contract [perpetualV1] the address of the proxy's
    artifact on that network, the same as [perpetualProxy]; every other
    contract has the entry of its own artifact, and an artifact without an
    entry for the network leaves its contract without address. *)
Theorem constructor_addresses (a : Artifacts) (networkId : Z)
    (sendOptions : SendOptions) (debugGas : option string) :
  let c := new_Contracts a networkId sendOptions debugGas in
  address_of c (perpetualProxy c) = networks (perpetualProxyJson a) !! networkId
  /\ address_of c (perpetualV1 c) = networks (perpetualProxyJson a) !! networkId
  /\ address_of c (p1FundingOracle c) = networks (p1FundingOracleJson a) !! networkId
  /\ address_of c (p1MakerOracle c) = networks (p1MakerOracleJson a) !! networkId
  /\ address_of c (p1Orders c) = networks (p1OrdersJson a) !! networkId
  /\ address_of c (p1Deleveraging c) = networks (p1DeleveragingJson a) !! networkId
  /\ address_of c (p1Liquidation c) = networks (p1LiquidationJson a) !! networkId
  /\ address_of c (p1LiquidatorProxy c)
     = networks (p1LiquidatorProxyJson a) !! networkId
  /\ address_of c (erc20 c) = networks (erc20Json a) !! networkId
  /\ List.map isTest (contractsList c)
     = [false; false; false; false; false; false; false; false; true].
Proof.
  cbv zeta. unfold address_of. cbn.
  repeat split; now destruct (networks _ !! networkId).
Qed.

Section SetProvider.

Lemma find_contract_map (f : ContractInfo -> ContractInfo) (l : list ContractInfo)
    (id : nat) :
  (forall ci, contract_id (contract (f ci)) = contract_id (contract ci)) ->
  find_contract (List.map f l) id = f <$> find_contract l id.
Proof.
  intros Hf. unfold find_contract.
  induction l as [|ci l IH]; [reflexivity|].
  cbn [List.map List.find]. rewrite Hf.
  destruct (Nat.eqb (contract_id (contract ci)) id); [reflexivity | exact IH].
Qed.

(** Selecting the same network again assigns each address again. *)
Lemma setContractProvider_again (c c' : Contracts) (networkId : Z)
    (ci : ContractInfo) :
  perpetualV1 c' = perpetualV1 c ->
  perpetualProxy c' = perpetualProxy c ->
  contractsList c' = List.map (setContractProvider c networkId) (contractsList c) ->
  setContractProvider c' networkId (setContractProvider c networkId ci)
  = setContractProvider c networkId ci.
Proof.
  intros H1 H2 H3.
  assert (forall x, contract_id (contract (setContractProvider c networkId x))
                    = contract_id (contract x)) as Hid by reflexivity.
  assert (forall x, json (setContractProvider c networkId x) = json x) as Hj
    by reflexivity.
  unfold setContractProvider at 1.
  rewrite H1, H2, H3, (find_contract_map _ _ _ Hid), Hid, Hj.
  unfold setContractProvider.
  cbn [contract contract_id jsonInterface options_address json isTest].
  destruct (find_contract (contractsList c) (perpetualProxy c)) as [p|];
    cbn [fmap option_fmap option_map json];
    destruct (Nat.eqb (contract_id (contract ci)) (perpetualV1 c));
    repeat match goal with
           | |- context [networks ?j !! networkId] =>
               destruct (networks j !! networkId)
           end; reflexivity.
Qed.

End SetProvider.

(** X10. [setProvider] keeps the contracts' identities, interfaces and
    test flags, and the gas counters, and selecting the network that is
    selected changes nothing. A change of network on the object the
    constructor built gives each contract the address a new object would
    have on the new network, and leaves a contract that would have none
    there with the address it had: an address of the previous network
    outlives the change. *)
Theorem setProvider_twice (c : Contracts) (first second : Z) (a : Artifacts)
    (sendOptions : SendOptions) (debugGas : option string) (id : nat) :
  setProvider (setProvider c first) first = setProvider c first
  /\ List.map (fun ci => (contract_id (contract ci), jsonInterface (contract ci),
                          isTest ci))
       (contractsList (setProvider c second))
     = List.map (fun ci => (contract_id (contract ci), jsonInterface (contract ci),
                            isTest ci))
         (contractsList c)
  /\ getCumulativeGasUsed (setProvider c second) = getCumulativeGasUsed c
  /\ address_of (setProvider (new_Contracts a first sendOptions debugGas) second) id
     = match address_of (new_Contracts a second sendOptions debugGas) id with
       | Some address => Some address
       | None => address_of (new_Contracts a first sendOptions debugGas) id
       end.
Proof.
  split; [| split; [| split; [reflexivity |]]].
  - unfold setProvider at 1 3.
    change (contractsList (setProvider c first))
      with (List.map (setContractProvider c first) (contractsList c)).
    rewrite List.map_map.
    rewrite (List.map_ext _ (setContractProvider c first)
               (fun ci => setContractProvider_again c (setProvider c first)
                            first ci eq_refl eq_refl eq_refl)).
    reflexivity.
  - unfold setProvider. cbn [set_contractsList contractsList].
    rewrite List.map_map. now apply List.map_ext.
  - unfold address_of.
    do 9 (destruct id as [|id];
          [cbn;
           repeat match goal with
                  | |- context [networks ?j !! ?n] => destruct (networks j !! n)
                  end; reflexivity |]).
    reflexivity.
Qed.

Section RegistryContent.

(** The registry the loop builds, key by key. *)
Lemma fill_registry_lookup (l : list ContractInfo) (m : gmap string Contract)
    (k : string) :
  snd (fill_registry l m) = None ->
  fst (fill_registry l m) !! k = last_registered l k (m !! k).
Proof.
  revert m. induction l as [|ci rest IH]; intros m; [reflexivity|].
  cbn [fill_registry last_registered]. unfold address_lower_is.
  destruct (isTest ci); cbn [negb andb]; [apply IH|].
  destruct (options_address (contract ci)) as [a|]; [| discriminate].
  destruct (String.eqb a ""); [discriminate|].
  intros H. rewrite (IH _ H). f_equal.
  rewrite lookup_insert.
  destruct (String.eqb_spec (toLowerCase a) k); case_decide; congruence.
Qed.

Lemma last_registered_sound (l : list ContractInfo) (k : string)
    (acc : option Contract) (c : Contract) :
  last_registered l k acc = Some c ->
  acc = Some c
  \/ exists ci, In ci l /\ contract ci = c /\ isTest ci = false
                /\ address_lower_is c k = true.
Proof.
  revert acc. induction l as [|ci rest IH]; intros acc H; [now left|].
  cbn [last_registered] in H. apply IH in H as [H | (x & Hin & Hx)].
  - destruct (isTest ci) eqn:Ht; cbn [negb andb] in H; [now left|].
    destruct (address_lower_is (contract ci) k) eqn:Ha; [| now left].
    injection H as <-. right. exists ci. repeat split; auto. now left.
  - right. exists x. split; [now right | exact Hx].
Qed.

Lemma last_registered_complete (l : list ContractInfo) (k : string)
    (acc : option Contract) :
  (exists c, acc = Some c /\ address_lower_is c k = true)
  \/ (exists ci, In ci l /\ isTest ci = false
                 /\ address_lower_is (contract ci) k = true) ->
  exists c, last_registered l k acc = Some c /\ address_lower_is c k = true.
Proof.
  revert acc. induction l as [|ci rest IH]; intros acc H.
  - destruct H as [H | (ci & [] & _)]. exact H.
  - cbn [last_registered]. apply IH.
    destruct (isTest ci) eqn:Ht; cbn [negb andb].
    + destruct H as [H | (x & [<- | Hin] & Hx1 & Hx2)]; [now left | congruence |].
      right. eauto.
    + destruct (address_lower_is (contract ci) k) eqn:Ha.
      * left. eauto.
      * destruct H as [H | (x & [<- | Hin] & Hx1 & Hx2)];
          [now left | congruence | right; eauto].
Qed.

Lemma contractsByAddress_fresh_Ok (lg lg' : Logs) (registry : gmap string Contract) :
  _contractsByAddress lg = None ->
  contractsByAddress lg = (Ok registry, lg') ->
  snd (fill_registry (contractsList (contracts lg)) ∅) = None
  /\ registry = fst (fill_registry (contractsList (contracts lg)) ∅).
Proof.
  intros Hn. unfold contractsByAddress. rewrite Hn.
  destruct (fill_registry (contractsList (contracts lg)) ∅) as [m [error|]];
    intros H; [discriminate|].
  injection H as <- _. now split.
Qed.

End RegistryContent.

(** X11. When the first build of the registry succeeds, its keys are the
    lower-cased addresses of the contracts that are not test contracts:
    each such contract has an address whose lower-cased form is a key, and
    every key is mapped to a contract of [contractsList] that is not a test
    contract and has that lower-cased address. Test contracts are never
    registered. *)
Theorem registry_content (lg lg' : Logs) (registry : gmap string Contract) :
  _contractsByAddress lg = None ->
  contractsByAddress lg = (Ok registry, lg') ->
  (forall ci,
     In ci (contractsList (contracts lg)) -> isTest ci = false ->
     exists a c,
       options_address (contract ci) = Some a
       /\ registry !! toLowerCase a = Some c
       /\ address_lower_is c (toLowerCase a) = true)
  /\ (forall k c,
        registry !! k = Some c ->
        exists ci,
          In ci (contractsList (contracts lg)) /\ contract ci = c
          /\ isTest ci = false /\ address_lower_is c k = true).
Proof.
  intros Hn Hc.
  destruct (contractsByAddress_fresh_Ok lg lg' registry Hn Hc) as [Hs ->].
  split.
  - intros ci Hin Ht.
    pose proof (fill_registry_thrown (contractsList (contracts lg)) ∅) as Hth.
    rewrite Hs in Hth.
    destruct (forallb registrable (contractsList (contracts lg))) eqn:Hall;
      [| discriminate].
    rewrite forallb_forall in Hall. specialize (Hall ci Hin).
    unfold registrable, no_address in Hall. rewrite Ht in Hall. cbn [orb] in Hall.
    destruct (options_address (contract ci)) as [a|] eqn:Ha; [| discriminate].
    exists a.
    destruct (last_registered_complete (contractsList (contracts lg))
                (toLowerCase a) None) as (c & Hl & Hp).
    { right. exists ci. repeat split; auto.
      unfold address_lower_is. rewrite Ha. apply String.eqb_refl. }
    exists c. repeat split; auto.
    rewrite (fill_registry_lookup _ _ _ Hs), lookup_empty. exact Hl.
  - intros k c Hk.
    rewrite (fill_registry_lookup _ _ _ Hs), lookup_empty in Hk.
    apply last_registered_sound in Hk as [Hk | Hk]; [discriminate | exact Hk].
Qed.

Lemma registry_content_witness :
  exists ci,
    In ci (contractsList (contracts (sample_logs 1)))
    /\ contract_id (contract ci) = 4%nat
    /\ isTest ci = false
    /\ address_lower_is (contract ci) "0xa4" = true.
Proof.
  assert (contractsByAddress (sample_logs 1)
          = (Ok (fst (fill_registry (contractsList (contracts (sample_logs 1)))
                        (∅ : gmap string Contract))),
             snd (contractsByAddress (sample_logs 1)))) as E
    by (vm_compute; reflexivity).
  destruct (proj2 (registry_content (sample_logs 1) _ _ eq_refl E)
              "0xa4" (mkContract 4 [transfer_event] (Some "0xA4")))
    as (ci & Hin & Hc & Ht & Ha).
  { vm_compute. reflexivity. }
  exists ci. rewrite Hc. repeat split; auto.
Defined.

(** X12. In the registry of the contracts built by the constructor, the
    address shared by the proxy and the implementation is mapped to the
    implementation [perpetualV1], registered after the proxy, provided no
    other deployed contract has that address: the lookup that follows the
    proxy's own interface uses the implementation's interface. *)
Theorem registry_proxy_address (a : Artifacts) (networkId : Z)
    (sendOptions : SendOptions) (debugGas : option string) (w : Web3)
    (lg' : Logs) (registry : gmap string Contract) (proxyAddress : string) :
  let c := new_Contracts a networkId sendOptions debugGas in
  let lg := {| contracts := c; _contractsByAddress := None; web3 := w |} in
  contractsByAddress lg = (Ok registry, lg') ->
  proxy_address c = Some proxyAddress ->
  (forall j x,
     In j [p1FundingOracleJson a; p1MakerOracleJson a; p1OrdersJson a;
           p1DeleveragingJson a; p1LiquidationJson a; p1LiquidatorProxyJson a] ->
     networks j !! networkId = Some x ->
     toLowerCase x <> toLowerCase proxyAddress) ->
  registry !! toLowerCase proxyAddress
  = Some {| contract_id := perpetualV1 c;
            jsonInterface := abi (perpetualV1Json a);
            options_address := Some proxyAddress |}.
Proof.
  cbv zeta. intros Hc Hp Hne.
  destruct (contractsByAddress_fresh_Ok
              {| contracts := new_Contracts a networkId sendOptions debugGas;
                 _contractsByAddress := None; web3 := w |}
              lg' registry eq_refl Hc) as [Hs ->].
  cbn [contracts] in *.
  rewrite (fill_registry_lookup _ _ _ Hs), lookup_empty.
  assert (forall o : option string,
            match o with Some x => Some x | None => None end = o) as Hkeep
    by (now intros [x|]).
  assert (networks (perpetualProxyJson a) !! networkId = Some proxyAddress)
    as Hp'.
  { revert Hp. unfold proxy_address. cbn. now rewrite Hkeep. }
  clear Hp. rename Hp' into Hp.
  assert (forall j, In j [p1FundingOracleJson a; p1MakerOracleJson a;
                          p1OrdersJson a; p1DeleveragingJson a;
                          p1LiquidationJson a; p1LiquidatorProxyJson a] ->
                    match networks j !! networkId with
                    | Some x => String.eqb (toLowerCase x) (toLowerCase proxyAddress)
                    | None => false
                    end = false) as Hoff.
  { intros j Hj. destruct (networks j !! networkId) as [x|] eqn:E; [| reflexivity].
    apply String.eqb_neq. eapply Hne; eauto. }
  cbn [new_Contracts addContract setProvider set_contractsList contractsList
       List.map app length last_registered isTest negb andb contract
       setContractProvider contract_id Nat.eqb perpetualV1 perpetualProxy
       find_contract List.find json address_lower_is options_address].
  unfold address_lower_is. cbn [options_address jsonInterface].
  rewrite !Hkeep, Hp.
  rewrite !Hoff by (cbn; tauto).
  now rewrite String.eqb_refl.
Qed.

Lemma registry_proxy_address_witness :
  match fst (contractsByAddress (sample_logs 1)) with
  | Ok registry => registry !! "0xa0"
  | Err _ => None
  end = Some (mkContract 1 [transfer_event] (Some "0xA0")).
Proof.
  pose proof (registry_proxy_address sample_artifacts 1 no_options None sample_web3
                (snd (contractsByAddress (sample_logs 1)))
                (match fst (contractsByAddress (sample_logs 1)) with
                 | Ok registry => registry
                 | Err _ => ∅
                 end)
                "0xA0") as H.
  cbv zeta in H.
  assert (fst (contractsByAddress (sample_logs 1))
          = Ok (match fst (contractsByAddress (sample_logs 1)) with
                | Ok registry => registry
                | Err _ => ∅
                end)) as E by (vm_compute; reflexivity).
  rewrite E. apply H.
  - vm_compute. reflexivity.
  - vm_compute. reflexivity.
  - intros j x Hj Hx.
    repeat (destruct Hj as [<- | Hj];
            [vm_compute in Hx; injection Hx as <-; vm_compute; discriminate |]).
    destruct Hj.
Defined.

(** X13. The not-deployed error of the registry is thrown once. The getter
    stores the mapping before it fills it, so after a first access that
    threw, the next access returns, without error, the part of the mapping
    that was filled before the contract without address; a later log from
    a hexadecimal address ([0x...]) that is neither the proxy's nor in that
    part is then not decodable instead of an error. *)
Theorem registry_error_thrown_once (lg : Logs) :
  _contractsByAddress lg = None ->
  forallb registrable (contractsList (contracts lg)) = false ->
  let lg1 := snd (contractsByAddress lg) in
  let partial := fst (fill_registry (contractsList (contracts lg)) ∅) in
  fst (contractsByAddress lg) = Err not_deployed_error
  /\ contractsByAddress lg1 = (Ok partial, lg1)
  /\ (forall log,
        take_str 2 (toLowerCase (log_address log)) = "0x" ->
        addressesAreEqual (toLowerCase (log_address log))
          (proxy_address (contracts lg)) = false ->
        partial !! toLowerCase (log_address log) = None ->
        parseLog lg1 log = (Ok None, lg1)).
Proof.
  intros Hn Hreg. cbv zeta.
  split; [rewrite (contractsByAddress_fresh lg Hn), Hreg; reflexivity |].
  assert (snd (contractsByAddress lg)
          = {| contracts := contracts lg;
               _contractsByAddress :=
                 Some (fst (fill_registry (contractsList (contracts lg)) ∅));
               web3 := web3 lg |}) as ->.
  { unfold contractsByAddress. rewrite Hn.
    destruct (fill_registry (contractsList (contracts lg)) ∅) as [m [e|]];
      reflexivity. }
  split; [reflexivity |].
  intros log Hhex Hp Hk. apply hex_address_not_inherited in Hhex.
  unfold parseLog, proxy_address in *. cbn [contracts web3] in *.
  destruct (proxy_contract (contracts lg)) as [proxy|]; [rewrite Hp |];
    unfold contractsByAddress; cbn [_contractsByAddress]; now rewrite Hk, Hhex.
Qed.

Lemma registry_error_thrown_once_witness :
  let lg1 := snd (contractsByAddress (sample_logs 42)) in
  fst (contractsByAddress (sample_logs 42)) = Err not_deployed_error
  /\ fst (parseLog lg1 (sample_log "0xFF" ["0xaa11"])) = Ok None.
Proof.
  cbv zeta.
  destruct (registry_error_thrown_once (sample_logs 42) eq_refl
              ltac:(vm_compute; reflexivity)) as (H1 & _ & H3).
  split; [exact H1 |].
  rewrite (H3 (sample_log "0xFF" ["0xaa11"])); [reflexivity | | |];
    vm_compute; reflexivity.
Defined.

(* ===================================================================== *)
(** * Further properties of the event-log decoder *)
(* ===================================================================== *)

Section DecodedLog.

(** What a decoded log is made of. *)
Lemma parseLogWithContract_Some (w : Web3) (c : Contract) (log : Log)
    (p : ParsedLog) :
  parseLogWithContract w c log = Ok (Some p) ->
  parsed_log p = log
  /\ exists e topic0 topics eventArgs,
       log_topics log = topic0 :: topics
       /\ In e (jsonInterface c)
       /\ String.eqb (item_type e) "event" = true
       /\ String.eqb (toLowerCase (item_signature e)) (toLowerCase topic0) = true
       /\ parsed_name p = item_name e
       /\ decodeLog w (item_inputs e) (log_data log) topics = Ok eventArgs
       /\ parseArgs (item_inputs e) eventArgs = Ok (parsed_args p).
Proof.
  unfold parseLogWithContract.
  destruct (List.filter _ (jsonInterface c)) as [|e0 events] eqn:Hf;
    [discriminate|].
  destruct (log_topics log) as [|topic0 topics]; [discriminate|].
  destruct (List.find _ (e0 :: events)) as [e|] eqn:Hfind; [| discriminate].
  apply List.find_some in Hfind as [Hin Hsig]. rewrite <- Hf in Hin.
  apply List.filter_In in Hin as [Hin Hev].
  destruct (decodeLog w (item_inputs e) (log_data log) topics) as [eventArgs|]
    eqn:Hd; [| discriminate].
  cbn. destruct (parseArgs (item_inputs e) eventArgs) as [args|] eqn:Ha;
    [| discriminate].
  cbn. intros H. injection H as <-. split; [reflexivity|].
  exists e, topic0, topics, eventArgs. repeat split; auto.
Qed.

Lemma contractsByAddress_frame (lg : Logs) :
  contracts (snd (contractsByAddress lg)) = contracts lg
  /\ web3 (snd (contractsByAddress lg)) = web3 lg.
Proof.
  unfold contractsByAddress.
  destruct (_contractsByAddress lg); [now split|].
  destruct (fill_registry _ _) as [m [e|]]; now split.
Qed.

(** The lookup in the registry: what it decodes is decoded against the
    entry of the lower-cased address. *)
Lemma registry_stage_Some (lg : Logs) (log : Log) (p : ParsedLog) :
  fst (match contractsByAddress lg with
        | (Err error, lg') => (Err error, lg')
        | (Ok registry, lg') =>
            match registry !! toLowerCase (log_address log) with
            | Some contract => (parseLogWithContract (web3 lg') contract log, lg')
            | None =>
                if inherited_key (toLowerCase (log_address log)) then
                  (Err (Error "TypeError: Cannot read property 'jsonInterface' of undefined"),
                   lg')
                else (Ok None, lg')
            end
        end)
  = Ok (Some p) ->
  exists c registry,
    fst (contractsByAddress lg) = Ok registry
    /\ registry !! toLowerCase (log_address log) = Some c
    /\ parseLogWithContract (web3 lg) c log = Ok (Some p).
Proof.
  pose proof (proj2 (contractsByAddress_frame lg)) as Hw.
  destruct (contractsByAddress lg) as [[registry | error] lg'];
    cbn [fst snd] in *; [| discriminate].
  destruct (registry !! toLowerCase (log_address log)) as [c|] eqn:E;
    cbn [fst]; [| destruct (inherited_key _); discriminate].
  rewrite Hw. intros Hc. now exists c, registry.
Qed.

End DecodedLog.

(** X14. A log from the proxy's address is first tried against the
    proxy's own interface: what that interface decodes is returned, and
    what it throws is thrown, without the registry being consulted. The
    registry entry of the lower-cased address is used only when the address
    is not the proxy's or the proxy's interface has no event for the first
    topic. In both cases the decoded record is what [parseLogWithContract]
    makes of the log with that contract: it carries the log unchanged, the
    name of an event of that contract whose signature is the log's first
    topic up to letter case, and the parsed arguments of what [decodeLog]
    returned for that event's inputs, the data and the remaining topics. *)
Theorem parseLog_sound (lg : Logs) (log : Log) :
  let logAddress := toLowerCase (log_address log) in
  (forall proxy r,
     proxy_contract (contracts lg) = Some proxy ->
     addressesAreEqual logAddress (options_address proxy) = true ->
     parseLogWithContract (web3 lg) proxy log = r ->
     r <> Ok None ->
     parseLog lg log = (r, lg))
  /\ (forall p,
        fst (parseLog lg log) = Ok (Some p) ->
        parsed_log p = log
        /\ exists c e topic0 topics eventArgs,
             ((proxy_contract (contracts lg) = Some c
               /\ addressesAreEqual logAddress (options_address c) = true)
              \/ ((forall proxy,
                     proxy_contract (contracts lg) = Some proxy ->
                     addressesAreEqual logAddress (options_address proxy) = true ->
                     parseLogWithContract (web3 lg) proxy log = Ok None)
                  /\ exists registry,
                       fst (contractsByAddress lg) = Ok registry
                       /\ registry !! logAddress = Some c))
             /\ parseLogWithContract (web3 lg) c log = Ok (Some p)
             /\ log_topics log = topic0 :: topics
             /\ In e (jsonInterface c)
             /\ String.eqb (item_type e) "event" = true
             /\ String.eqb (toLowerCase (item_signature e)) (toLowerCase topic0)
                = true
             /\ parsed_name p = item_name e
             /\ decodeLog (web3 lg) (item_inputs e) (log_data log) topics
                = Ok eventArgs
             /\ parseArgs (item_inputs e) eventArgs = Ok (parsed_args p)).
Proof.
  cbv zeta. split.
  { intros proxy r Hp Ha Hr Hn. unfold parseLog. rewrite Hp, Ha, Hr.
    destruct r as [[p|]|error]; [reflexivity | congruence | reflexivity]. }
  intros p H. unfold parseLog in H.
  assert (forall c (own : Prop),
            parseLogWithContract (web3 lg) c log = Ok (Some p) -> own ->
            parsed_log p = log
            /\ exists e topic0 topics eventArgs,
                 own
                 /\ parseLogWithContract (web3 lg) c log = Ok (Some p)
                 /\ log_topics log = topic0 :: topics
                 /\ In e (jsonInterface c)
                 /\ String.eqb (item_type e) "event" = true
                 /\ String.eqb (toLowerCase (item_signature e))
                      (toLowerCase topic0) = true
                 /\ parsed_name p = item_name e
                 /\ decodeLog (web3 lg) (item_inputs e) (log_data log) topics
                    = Ok eventArgs
                 /\ parseArgs (item_inputs e) eventArgs = Ok (parsed_args p))
    as Hwith.
  { intros c own Hc Hown.
    destruct (parseLogWithContract_Some _ _ _ _ Hc)
      as (Hl & e & topic0 & topics & eventArgs & Hrest).
    split; [exact Hl |]. exists e, topic0, topics, eventArgs.
    split; [exact Hown | split; [exact Hc | exact Hrest]]. }
  destruct (proxy_contract (contracts lg)) as [proxy|] eqn:Hp.
  - destruct (addressesAreEqual _ (options_address proxy)) eqn:Heq.
    + destruct (parseLogWithContract (web3 lg) proxy log) as [[p'|]|] eqn:Hc;
        cbn [fst] in H.
      * injection H as ->.
        edestruct (Hwith proxy) as [Hl Hex]; [exact Hc | |
          split; [exact Hl | exists proxy; exact Hex]].
        left. now split.
      * destruct (registry_stage_Some lg log p H) as (c & registry & Hr & Hk & Hc').
        edestruct (Hwith c) as [Hl Hex]; [exact Hc' | |
          split; [exact Hl | exists c; exact Hex]].
        right. split; [| now exists registry].
        intros proxy0 E _. now injection E as <-.
      * discriminate.
    + destruct (registry_stage_Some lg log p H) as (c & registry & Hr & Hk & Hc').
      edestruct (Hwith c) as [Hl Hex]; [exact Hc' | |
        split; [exact Hl | exists c; exact Hex]].
      right. split; [| now exists registry].
      intros proxy0 E Ha. injection E as <-. congruence.
  - destruct (registry_stage_Some lg log p H) as (c & registry & Hr & Hk & Hc').
    edestruct (Hwith c) as [Hl Hex]; [exact Hc' | |
      split; [exact Hl | exists c; exact Hex]].
    right. split; [| now exists registry].
    intros proxy0 E. discriminate.
Qed.

Lemma parseLog_sound_witness :
  exists p,
    parseLog (sample_logs 1) (sample_log "0xA0" ["0xaa11"])
    = (Ok (Some p), sample_logs 1)
    /\ parsed_log p = sample_log "0xA0" ["0xaa11"]
    /\ parsed_name p = "LogDeposit".
Proof.
  eexists. split; [| split].
  - refine (proj1 (parseLog_sound (sample_logs 1) (sample_log "0xA0" ["0xaa11"]))
              (mkContract 0 [transfer_event] (Some "0xA0")) _ eq_refl eq_refl
              eq_refl _).
    vm_compute. discriminate.
  - refine (proj1 (proj2 (parseLog_sound (sample_logs 1)
                            (sample_log "0xA0" ["0xaa11"])) _ _)).
    vm_compute. reflexivity.
  - reflexivity.
Defined.

Section Order.

(** A decoded log carries the log it was decoded from. *)
Lemma parseLog_log (lg : Logs) (log : Log) (p : ParsedLog) :
  fst (parseLog lg log) = Ok (Some p) -> parsed_log p = log.
Proof.
  unfold parseLog.
  assert (forall w c, parseLogWithContract w c log = Ok (Some p) ->
                      parsed_log p = log) as Hwith
    by (intros w c Hc; now apply parseLogWithContract_Some in Hc).
  assert (fst (match contractsByAddress lg with
               | (Err error, lg') => (Err error, lg')
               | (Ok registry, lg') =>
                   match registry !! toLowerCase (log_address log) with
                   | Some contract =>
                       (parseLogWithContract (web3 lg') contract log, lg')
                   | None =>
                       if inherited_key (toLowerCase (log_address log)) then
                         (Err (Error "TypeError: Cannot read property 'jsonInterface' of undefined"),
                          lg')
                       else (Ok None, lg')
                   end
               end) = Ok (Some p) -> parsed_log p = log) as Hreg.
  { destruct (contractsByAddress lg) as [[registry | error] lg'];
      [| discriminate].
    destruct (registry !! toLowerCase (log_address log)) as [c|];
      [apply Hwith | destruct (inherited_key _); discriminate]. }
  destruct (proxy_contract (contracts lg)) as [proxy|]; [| exact Hreg].
  destruct (addressesAreEqual _ (options_address proxy)); [| exact Hreg].
  destruct (parseLogWithContract (web3 lg) proxy log) as [[p'|]|] eqn:Hc;
    [| exact Hreg | discriminate].
  cbn [fst]. intros H. injection H as ->. now apply Hwith in Hc.
Qed.

(** The traversal keeps the order of what it decodes and drops the rest. *)
Lemma map_filter_sublist {A : Type}
    (parse : Logs -> A -> Result (option ParsedLog) * Logs) (origin : A -> Log) :
  (forall lg x p, fst (parse lg x) = Ok (Some p) -> parsed_log p = origin x) ->
  forall l lg ps,
    fst (map_filter parse lg l) = Ok ps ->
    sublist (parsed_log <$> ps) (origin <$> l).
Proof.
  intros Hparse. induction l as [|x l IH]; intros lg ps; cbn [map_filter].
  - intros H. injection H as <-. constructor.
  - specialize (Hparse lg x).
    destruct (parse lg x) as [[parsed | error] lg1]; [| discriminate].
    specialize (IH lg1).
    destruct (map_filter parse lg1 l) as [[others | error] lg2]; [| discriminate].
    cbn [fst] in *. intros H. injection H as <-.
    destruct parsed as [p|].
    + cbn. rewrite (Hparse p eq_refl). apply sublist_skip. now apply IH.
    + cbn. apply sublist_cons. now apply IH.
Qed.

Lemma insert_event_perm (e : EventLog) (l : list EventLog) :
  Permutation (insert_event e l) (e :: l).
Proof.
  induction l as [|x l IH]; cbn [insert_event]; [reflexivity|].
  destruct (ev_logIndex e <=? ev_logIndex x); [reflexivity|].
  rewrite IH. apply perm_swap.
Qed.

Lemma sort_events_perm (l : list EventLog) : Permutation (sort_events l) l.
Proof.
  unfold sort_events. induction l as [|x l IH]; cbn [fold_right]; [reflexivity|].
  rewrite insert_event_perm. now constructor.
Qed.

Lemma insert_event_sorted (e : EventLog) (l : list EventLog) :
  StronglySorted (fun a b => ev_logIndex a <= ev_logIndex b) l ->
  StronglySorted (fun a b => ev_logIndex a <= ev_logIndex b) (insert_event e l).
Proof.
  induction 1 as [|x l Hs IH Hx]; cbn [insert_event].
  - repeat constructor.
  - destruct (ev_logIndex e <=? ev_logIndex x) eqn:E.
    + apply Z.leb_le in E. constructor; [now constructor|].
      constructor; [exact E|].
      eapply Forall_impl; [exact Hx |]. cbn. intros y Hy. lia.
    + apply Z.leb_gt in E. constructor; [exact IH|].
      eapply Permutation_Forall; [symmetry; apply insert_event_perm|].
      constructor; [lia | exact Hx].
Qed.

Lemma sort_events_sorted (l : list EventLog) :
  StronglySorted (fun a b => ev_logIndex a <= ev_logIndex b) (sort_events l).
Proof.
  unfold sort_events. induction l as [|x l IH]; cbn [fold_right];
    [constructor | now apply insert_event_sorted].
Qed.

Lemma sublist_StronglySorted {A : Type} (R : A -> A -> Prop) (l1 l2 : list A) :
  sublist l1 l2 -> StronglySorted R l2 -> StronglySorted R l1.
Proof.
  induction 1 as [| x l1 l2 Hsub IH | x l1 l2 Hsub IH]; intros Hs.
  - constructor.
  - apply StronglySorted_inv in Hs as [Hs Hx]. constructor; [now apply IH|].
    rewrite Forall_forall in *. intros y Hy. apply Hx.
    eapply elem_of_sublist; eauto.
  - apply StronglySorted_inv in Hs as [Hs _]. now apply IH.
Qed.

Lemma sorted_logs_of_events (l : list EventLog) :
  StronglySorted (fun a b => ev_logIndex a <= ev_logIndex b) l ->
  StronglySorted by_logIndex (log_of_event <$> l).
Proof.
  induction 1 as [|x l Hl IH Hx]; [constructor|].
  cbn. constructor; [exact IH|].
  apply Forall_fmap. eapply Forall_impl; [exact Hx |]. intros y Hy. exact Hy.
Qed.

End Order.

(** X15. From a receipt with a [logs] list, [parseLogs] returns, when it
    returns, the decoded logs in the order of the list: the logs they carry
    form a subsequence of the receipt's logs, the undecodable ones being
    dropped and none being invented or altered. *)
Theorem parseLogs_keeps_order (lg : Logs) (receipt : TxResult)
    (rawLogs : list Log) (parsedLogs : list ParsedLog) :
  logs receipt = Some rawLogs ->
  fst (parseLogs lg receipt) = Ok parsedLogs ->
  sublist (parsed_log <$> parsedLogs) rawLogs
  /\ (length parsedLogs <= length rawLogs)%nat.
Proof.
  unfold parseLogs. intros -> H.
  assert (sublist (parsed_log <$> parsedLogs) rawLogs) as Hs.
  { rewrite <- (list_fmap_id rawLogs).
    exact (map_filter_sublist parseLog id parseLog_log rawLogs lg parsedLogs H). }
  split; [exact Hs |].
  apply sublist_length in Hs. now rewrite length_fmap in Hs.
Qed.

Lemma parseLogs_keeps_order_witness :
  let receipt :=
    {| transactionHash := None; transactionIndex := None; blockHash := None;
       blockNumber := None; res_from := None; res_to := None;
       contractAddress := None; cumulativeGasUsed := None; gasUsed := None;
       logs := Some [sample_log "0xFF" ["0xaa11"]; sample_log "0xA0" ["0xaa11"];
                     sample_log "0xA0" ["0xbb22"]];
       events := None; status := None; confirmation := None;
       gasEstimate := None; gas := None |} in
  exists parsedLogs,
    fst (parseLogs (sample_logs 1) receipt) = Ok parsedLogs
    /\ parsed_log <$> parsedLogs = [sample_log "0xA0" ["0xaa11"]]
    /\ (length parsedLogs <= 3)%nat.
Proof.
  cbv zeta.
  lazymatch goal with
  | |- context [parseLogs _ ?r] =>
      eexists; split; [vm_compute; reflexivity |];
      split; [reflexivity |];
      refine (proj2 (parseLogs_keeps_order (sample_logs 1) r _ _ eq_refl _))
  end.
  vm_compute. reflexivity.
Defined.

(** X16. From a receipt without [logs] but with an [events] map,
    [parseLogs] returns, when it returns, the decoded events by ascending
    log index, whatever the order of the names in the map and whether a
    name holds one event or a list: the logs of the result form a
    subsequence of the events of the map sorted by log index, and sorting
    loses or repeats no event. *)
Theorem parseLogs_events_sorted (lg : Logs) (receipt : TxResult)
    (eventMap : list (string * EventEntry)) (parsedLogs : list ParsedLog) :
  logs receipt = None ->
  events receipt = Some eventMap ->
  fst (parseLogs lg receipt) = Ok parsedLogs ->
  StronglySorted by_logIndex (parsed_log <$> parsedLogs)
  /\ sublist (parsed_log <$> parsedLogs)
       (log_of_event <$> sort_events (flatten_events eventMap))
  /\ Permutation (sort_events (flatten_events eventMap)) (flatten_events eventMap).
Proof.
  unfold parseLogs. intros -> -> H.
  assert (sublist (parsed_log <$> parsedLogs)
            (log_of_event <$> sort_events (flatten_events eventMap))) as Hs.
  { refine (map_filter_sublist parseEvent log_of_event _ _ lg parsedLogs H).
    intros lg0 x p. apply parseLog_log. }
  split; [| split; [exact Hs | apply sort_events_perm]].
  apply (sublist_StronglySorted _ _ _ Hs).
  apply sorted_logs_of_events, sort_events_sorted.
Qed.

Lemma parseLogs_events_sorted_witness :
  let ev i := mkEventLog "0xA0" "0x" ["0xaa11"] i "0x01" 0 "0x02" 7 in
  let receipt :=
    {| transactionHash := None; transactionIndex := None; blockHash := None;
       blockNumber := None; res_from := None; res_to := None;
       contractAddress := None; cumulativeGasUsed := None; gasUsed := None;
       logs := None;
       events := Some [("Deposit", ManyEvents [ev 5; ev 9]);
                       ("Withdraw", OneEvent (ev 2))];
       status := None; confirmation := None; gasEstimate := None; gas := None |} in
  exists parsedLogs,
    fst (parseLogs (sample_logs 1) receipt) = Ok parsedLogs
    /\ (log_logIndex <$> (parsed_log <$> parsedLogs)) = [2; 5; 9]
    /\ StronglySorted by_logIndex (parsed_log <$> parsedLogs).
Proof.
  cbv zeta.
  lazymatch goal with
  | |- context [parseLogs _ ?r] =>
      eexists; split; [vm_compute; reflexivity |];
      split; [reflexivity |];
      refine (proj1 (parseLogs_events_sorted (sample_logs 1) r _ _
                       eq_refl eq_refl _))
  end.
  vm_compute. reflexivity.
Defined.

(** X17. A log without topics is decoded against no event: when the
    contract's interface has no event at all the result is [null], and as
    soon as it has one, comparing its signature with the missing first
    topic throws, whatever the log's data. An interface item that is not an
    event is never compared. *)
Theorem parseLogWithContract_no_topics (w : Web3) (c : Contract) (log : Log) :
  log_topics log = [] ->
  (Forall (fun e => String.eqb (item_type e) "event" = false) (jsonInterface c) ->
   parseLogWithContract w c log = Ok None)
  /\ (Exists (fun e => String.eqb (item_type e) "event" = true) (jsonInterface c) ->
      exists error, parseLogWithContract w c log = Err error).
Proof.
  intros Ht. unfold parseLogWithContract. rewrite Ht. split.
  - intros Hall.
    replace (List.filter _ (jsonInterface c)) with (@nil AbiItem); [reflexivity|].
    induction Hall as [|e l He _ IH]; [reflexivity|].
    cbn [List.filter]. now rewrite He.
  - intros Hex.
    destruct (List.filter _ (jsonInterface c)) as [|e0 events] eqn:Hf; [| eauto].
    exfalso. apply Exists_exists in Hex as (e & Hin & He).
    assert (In e (List.filter (fun e => String.eqb (item_type e) "event")
                    (jsonInterface c))) as Hin'
      by (apply List.filter_In; split; [now apply list_elem_of_In | exact He]).
    rewrite Hf in Hin'. destruct Hin'.
Qed.

Lemma parseLogWithContract_no_topics_witness :
  parseLogWithContract sample_web3 (mkContract 0 [] (Some "0xA0"))
    (sample_log "0xA0" []) = Ok None
  /\ exists error,
       parseLogWithContract sample_web3 (mkContract 0 [transfer_event] (Some "0xA0"))
         (sample_log "0xA0" []) = Err error.
Proof.
  split.
  - apply (proj1 (parseLogWithContract_no_topics sample_web3
                    (mkContract 0 [] (Some "0xA0")) (sample_log "0xA0" []) eq_refl)).
    constructor.
  - apply (proj2 (parseLogWithContract_no_topics sample_web3
                    (mkContract 0 [transfer_event] (Some "0xA0"))
                    (sample_log "0xA0" []) eq_refl)).
    constructor. reflexivity.
Defined.

Section ParseArgs.

Lemma assign_fresh {A : Type} (k : string) (v : A) (l : list (string * A)) :
  ~ In k (List.map fst l) -> assign k v l = l ++ [(k, v)].
Proof.
  induction l as [|[k' v'] l IH]; intros Hk; [reflexivity|].
  cbn [assign]. destruct (String.eqb_spec k' k) as [-> | Hne].
  - exfalso. apply Hk. now left.
  - cbn. f_equal. apply IH. intros Hin. apply Hk. now right.
Qed.

(** The loop of [parseArgs] on inputs whose names are new and distinct:
    one entry per input, appended in order. *)
Lemma parseArgs_loop (eventArgs : JsValue) (inputs : list AbiInput)
    (parsedObject result : list (string * Parsed)) :
  NoDup (List.map fst parsedObject ++ List.map input_name inputs) ->
  parseArgs_with parseValue eventArgs inputs parsedObject = Ok result ->
  exists entries,
    result = parsedObject ++ entries
    /\ Forall2 (fun input entry =>
                  fst entry = input_name input
                  /\ exists argValue,
                       get_prop eventArgs (input_name input) = Ok argValue
                       /\ parseValue input argValue = Ok (snd entry))
         inputs entries.
Proof.
  revert parsedObject. induction inputs as [|input rest IH]; intros acc Hnd H.
  - cbn in H. injection H as <-. exists []. split; [now rewrite app_nil_r|].
    constructor.
  - cbn [parseArgs_with] in H.
    destruct (get_prop eventArgs (input_name input)) as [argValue|] eqn:Hg;
      [| discriminate].
    cbn in H.
    destruct (parseValue input argValue) as [v|] eqn:Hv; [| discriminate].
    cbn in H.
    assert (~ In (input_name input) (List.map fst acc)) as Hfresh.
    { cbn [List.map] in Hnd. apply NoDup_app in Hnd as (_ & Hdis & _).
      intros Hin. apply list_elem_of_In in Hin.
      apply (Hdis _ Hin). now left. }
    rewrite (assign_fresh _ _ _ Hfresh) in H.
    apply IH in H as (entries & -> & Hall).
    + exists ((input_name input, v) :: entries).
      split; [now rewrite <- app_assoc|].
      constructor; [| exact Hall]. split; [reflexivity|]. eauto.
    + rewrite List.map_app. cbn [List.map fst]. rewrite <- app_assoc. exact Hnd.
Qed.

(** The loop stops at the first input that cannot be read or parsed. *)
Lemma parseArgs_loop_fails (eventArgs : JsValue) (before : list AbiInput)
    (input : AbiInput) (after : list AbiInput)
    (parsedObject : list (string * Parsed)) (error : JsError) :
  Forall (fun i => exists argValue v,
                     get_prop eventArgs (input_name i) = Ok argValue
                     /\ parseValue i argValue = Ok v) before ->
  (argValue ← get_prop eventArgs (input_name input); parseValue input argValue)
  = Err error ->
  parseArgs_with parseValue eventArgs (before ++ input :: after) parsedObject
  = Err error.
Proof.
  intros Hb Hi. revert parsedObject.
  induction Hb as [|i before (argValue & v & Hg & Hv) _ IH]; intros acc.
  - cbn [app parseArgs_with].
    destruct (get_prop eventArgs (input_name input)) as [argValue|];
      cbn in *; [| congruence].
    now rewrite Hi.
  - cbn [app parseArgs_with]. rewrite Hg. cbn. rewrite Hv. cbn. apply IH.
Qed.

End ParseArgs.

(** X18. When the declared inputs have distinct names, none of them
    [__proto__] or an array index, and [parseArgs] returns, its object has
    one entry per input, in the order of the inputs, under the input's
    name, holding [parseValue] of that input on the property of that name
    of the decoded arguments. *)
Theorem parseArgs_entries (inputs : list AbiInput) (eventArgs : JsValue)
    (result : list (string * Parsed)) :
  NoDup (List.map input_name inputs) ->
  forallb own_key_in_order (List.map input_name inputs) = true ->
  parseArgs inputs eventArgs = Ok result ->
  List.map fst result = List.map input_name inputs
  /\ Forall2 (fun input entry =>
                exists argValue,
                  get_prop eventArgs (input_name input) = Ok argValue
                  /\ parseValue input argValue = Ok (snd entry))
       inputs result.
Proof.
  intros Hnd _ H.
  apply parseArgs_loop in H as (entries & -> & Hall); [| exact Hnd].
  cbn [app]. split.
  - clear Hnd. induction Hall as [|i e ins ens [He _] _ IH]; [reflexivity|].
    cbn [List.map]. now rewrite He, IH.
  - eapply Forall2_impl; [exact Hall |]. now intros i e [_ He].
Qed.

Lemma parseArgs_entries_witness :
  List.map fst
    (match parseArgs (item_inputs transfer_event)
             (VObject [("amount", VString "12"); ("account", VString "0xA9")]) with
     | Ok result => result
     | Err _ => []
     end)
  = ["account"; "amount"].
Proof.
  destruct (parseArgs (item_inputs transfer_event)
              (VObject [("amount", VString "12"); ("account", VString "0xA9")]))
    as [result|] eqn:E; [| discriminate E].
  refine (proj1 (parseArgs_entries (item_inputs transfer_event) _ result _
                   eq_refl E)).
  cbn. repeat constructor; cbn; intros H; inversion H; subst;
    try discriminate; match goal with Hx : _ ∈ [] |- _ => inversion Hx end.
Defined.

(** X19. [parseArgs] fails fast: when the inputs before one input are read
    and parsed without error and that input's property cannot be read or
    its value cannot be parsed, [parseArgs] throws that error and returns
    no partial object, whatever the inputs after it. *)
Theorem parseArgs_fails_fast (eventArgs : JsValue) (before : list AbiInput)
    (input : AbiInput) (after : list AbiInput) (error : JsError) :
  Forall (fun i => exists argValue v,
                     get_prop eventArgs (input_name i) = Ok argValue
                     /\ parseValue i argValue = Ok v) before ->
  (argValue ← get_prop eventArgs (input_name input); parseValue input argValue)
  = Err error ->
  parseArgs (before ++ input :: after) eventArgs = Err error.
Proof. intros Hb Hi. now apply parseArgs_loop_fails. Qed.

Lemma parseArgs_fails_fast_witness :
  parseArgs ([mkAbiInput "account" "address" None []]
             ++ mkAbiInput "delta" "int256" None []
             :: [mkAbiInput "amount" "uint256" None []])
    (VObject [("account", VString "0xA9"); ("delta", VString "-5")])
  = Err (Error "Unknown event arg type int256").
Proof.
  apply (parseArgs_fails_fast
           (VObject [("account", VString "0xA9"); ("delta", VString "-5")])
           [mkAbiInput "account" "address" None []]
           (mkAbiInput "delta" "int256" None [])
           [mkAbiInput "amount" "uint256" None []]).
  - constructor; [| constructor]. exists (VString "0xA9"), (PValue (VString "0xA9")).
    split; reflexivity.
  - reflexivity.
Defined.

(** X20. An argument of type [address], [bool] or [bytesN] (any width, or
    none) that triggers no packed-struct rule is returned unchanged,
    whatever its value and its name. *)
Theorem parseValue_passes_through (name type : string)
    (internalType : option string) (components : list AbiInput)
    (argValue : JsValue) :
  String.eqb type "address" || String.eqb type "bool" || is_bytesN type = true ->
  packed_rule name type = false ->
  parseValue (mkAbiInput name type internalType components) argValue
  = Ok (PValue argValue).
Proof.
  unfold is_bytesN, packed_rule. intros Ht Hp. rewrite parseValue_unfold.
  destruct (String.eqb type "uint256") eqn:E256.
  { apply String.eqb_eq in E256. subst. discriminate Ht. }
  cbn [andb].
  destruct (String.eqb type "bytes32") eqn:E32; cbn [andb] in *.
  - apply String.eqb_eq in E32. subst type.
    cbn [name_in existsb] in Hp.
    repeat (apply orb_false_elim in Hp as [? Hp]).
    cbn [name_in existsb].
    repeat match goal with
           | Hc : String.eqb name _ = false |- _ => rewrite Hc; clear Hc
           end.
    reflexivity.
  - destruct (String.eqb type "address"); [reflexivity|].
    destruct (String.eqb type "bool"); [reflexivity|].
    cbn [orb] in Ht. now rewrite Ht.
Qed.

Lemma parseValue_passes_through_witness :
  parseValue (mkAbiInput "orderHash" "bytes32" None []) (VString "0xABCD")
  = Ok (PValue (VString "0xABCD"))
  /\ parseValue (mkAbiInput "approved" "bool" None []) (VBool true)
     = Ok (PValue (VBool true)).
Proof.
  split.
  - apply (parseValue_passes_through "orderHash" "bytes32" None []
             (VString "0xABCD")); reflexivity.
  - apply (parseValue_passes_through "approved" "bool" None [] (VBool true));
      reflexivity.
Defined.

(** X21. An argument of type [tuple] is decoded only when its internal
    type is ['struct P1Orders.Fill'] and its components are named amount,
    price, fee, isNegativeFee in that order: it is then the object
    [parseArgs] makes of the components, errors included. Other component
    names, or another order, throw the name-mismatch error, a missing
    internal type throws the unknown-tuple-type error, and another internal
    type throws one of the two; in these cases no component is parsed. *)
Theorem parseValue_tuple (name : string) (internalType : option string)
    (components : list AbiInput) (argValue : JsValue) :
  let input := mkAbiInput name "tuple" internalType components in
  let expected := ["amount"; "price"; "fee"; "isNegativeFee"] in
  (internalType = Some "struct P1Orders.Fill" ->
   List.map input_name components = expected ->
   parseValue input argValue
   = (args ← parseArgs components argValue; Ok (PArgs args)))
  /\ (internalType = Some "struct P1Orders.Fill" ->
      List.map input_name components <> expected ->
      parseValue input argValue
      = Err (Error "Arg name mismatch for tuple struct P1Orders.Fill"))
  /\ (forall t, internalType = Some t -> t <> "struct P1Orders.Fill" ->
      parseValue input argValue
      = Err (Error ("Unknown tuple type '" +:+ t +:+ "' in event"))
      \/ parseValue input argValue
         = Err (Error ("Arg name mismatch for tuple " +:+ t)))
  /\ (internalType = None ->
      parseValue input argValue
      = Err (Error "Unknown tuple type 'undefined' in event")).
Proof.
  cbv zeta. rewrite parseValue_unfold.
  change (String.eqb "tuple" "bytes32") with false.
  change (String.eqb "tuple" "uint256") with false.
  change (String.eqb "tuple" "address") with false.
  change (String.eqb "tuple" "bool") with false.
  change (matches_prefix_digits "bytes" "tuple") with false.
  change (matches_prefix_digits "uint" "tuple") with false.
  change (String.eqb "tuple" "tuple") with true.
  cbn [andb]. cbv iota.
  repeat split.
  - intros -> Hn. cbn [assoc TUPLE_MAP String.eqb Ascii.eqb Bool.eqb]. cbv zeta.
    rewrite bool_decide_eq_true_2 by (symmetry; exact Hn). reflexivity.
  - intros -> Hn. cbn [assoc TUPLE_MAP String.eqb Ascii.eqb Bool.eqb]. cbv zeta.
    rewrite bool_decide_eq_false_2 by (intros E; apply Hn; symmetry; exact E).
    reflexivity.
  - intros t -> Hn. cbn [assoc TUPLE_MAP].
    destruct (String.eqb_spec "struct P1Orders.Fill" t); [congruence | now left].
  - intros ->. reflexivity.
Qed.

Lemma parseValue_tuple_witness :
  parseValue (mkAbiInput "fill" "tuple" (Some "struct P1Orders.Fill")
                [mkAbiInput "price" "uint256" None [];
                 mkAbiInput "amount" "uint256" None []])
    (VObject [("amount", VString "5"); ("price", VString "7")])
  = Err (Error "Arg name mismatch for tuple struct P1Orders.Fill")
  /\ (parseValue (mkAbiInput "fill" "tuple" (Some "struct P1Orders.Order") [])
        (VObject [])
      = Err (Error "Unknown tuple type 'struct P1Orders.Order' in event")
      \/ parseValue (mkAbiInput "fill" "tuple" (Some "struct P1Orders.Order") [])
           (VObject [])
         = Err (Error "Arg name mismatch for tuple struct P1Orders.Order")).
Proof.
  split.
  - apply (proj1 (proj2 (parseValue_tuple "fill" (Some "struct P1Orders.Fill")
                           [mkAbiInput "price" "uint256" None [];
                            mkAbiInput "amount" "uint256" None []]
                           (VObject [("amount", VString "5");
                                     ("price", VString "7")]))));
      [reflexivity | discriminate].
  - apply (proj1 (proj2 (proj2 (parseValue_tuple "fill"
                                  (Some "struct P1Orders.Order") [] (VObject []))))
             "struct P1Orders.Order"); [reflexivity | discriminate].
Defined.

(* ===================================================================== *)
(** * Properties of the Solidity structs of [lib/types.ts] *)
(* ===================================================================== *)

Section SolidityStructs.

(** Reading back the decimal digits that were written. *)
Lemma read_digits_to_dec_fuel (fuel : nat) (z : Z) (acc : string) :
  0 <= z < 2 ^ Z.of_nat fuel ->
  read_digits 10 0 (to_dec_fuel fuel z acc) = read_digits 10 z acc.
Proof using Type.
  revert z acc. induction fuel as [|fuel IH]; intros z acc Hz.
  - cbn in Hz. assert (z = 0) as -> by lia. reflexivity.
  - rewrite Nat2Z.inj_succ, Z.pow_succ_r in Hz by lia.
    pose proof (Z.mod_pos_bound z 10 ltac:(lia)) as Hm.
    pose proof (Z.div_mod z 10 ltac:(lia)) as Hd.
    assert (read_digits 10 (z / 10) (String (hex_digit (z mod 10)) acc)
            = read_digits 10 z acc) as Hstep.
    { cbn [read_digits]. rewrite digit_value_hex_digit by lia.
      destruct (z mod 10 <? 10) eqn:E; [|lia]. f_equal. lia. }
    cbn [to_dec_fuel]. destruct (z <? 10) eqn:E10.
    + rewrite <- Hstep. rewrite Z.div_small by lia. reflexivity.
    + rewrite IH; [exact Hstep|].
      split; [apply Z.div_pos; lia | apply Z.div_lt_upper_bound; lia].
Qed.

Lemma read_digits_to_dec (z : Z) :
  0 <= z -> read_digits 10 0 (to_dec z) = Some z.
Proof using Type.
  intros Hz. unfold to_dec. rewrite read_digits_to_dec_fuel; [reflexivity|].
  split; [exact Hz|].
  destruct (Z.eq_dec z 0) as [->|Hn]; [reflexivity|].
  rewrite Nat2Z.inj_succ, Z2Nat.id by apply Z.log2_nonneg.
  apply Z.log2_spec. lia.
Qed.

(** The text of a natural number starts with a digit. *)
Lemma to_dec_fuel_head (fuel : nat) (z : Z) (acc : string) :
  exists d r, 0 <= d < 10 /\ to_dec_fuel (S fuel) z acc = String (hex_digit d) r.
Proof using Type.
  revert z acc. induction fuel as [|fuel IH]; intros z acc.
  - exists (z mod 10), acc. split; [apply Z.mod_pos_bound; lia|].
    cbn [to_dec_fuel]. destruct (z <? 10); reflexivity.
  - change (to_dec_fuel (S (S fuel)) z acc)
      with (let acc' := String (hex_digit (z mod 10)) acc in
            if z <? 10 then acc' else to_dec_fuel (S fuel) (z / 10) acc').
    cbv zeta. destruct (z <? 10).
    + exists (z mod 10), acc. split; [apply Z.mod_pos_bound; lia | reflexivity].
    + apply IH.
Qed.

Lemma BigNumber_dec_digit (d : Z) (r : string) :
  0 <= d < 10 ->
  BigNumber_dec (String (hex_digit d) r)
  = match read_digits 10 0 (String (hex_digit d) r) with
    | Some z => BN z
    | None => BN_NaN
    end.
Proof using Type.
  intros Hd.
  assert (d = 0 \/ d = 1 \/ d = 2 \/ d = 3 \/ d = 4 \/ d = 5 \/ d = 6 \/ d = 7
          \/ d = 8 \/ d = 9) as Hc by lia.
  repeat (destruct Hc as [-> | Hc]; [reflexivity|]). subst. reflexivity.
Qed.

Lemma BigNumber_dec_to_dec (z : Z) : 0 <= z -> BigNumber_dec (to_dec z) = BN z.
Proof using Type.
  intros Hz. pose proof (read_digits_to_dec z Hz) as Hr.
  unfold to_dec in *.
  destruct (to_dec_fuel_head (Z.to_nat (Z.log2 z)) z "") as (d & r & Hd & E).
  rewrite E in *. rewrite BigNumber_dec_digit by exact Hd.
  rewrite Hr. reflexivity.
Qed.

Lemma BigNumber_dec_toFixed0_abs (b : BigNumber) :
  BigNumber_dec (BN_toFixed0 (BN_abs b)) = BN_abs b.
Proof using Type.
  destruct b as [z|]; [|reflexivity].
  cbn [BN_abs BN_toFixed0]. pose proof (Z.abs_nonneg z) as Hz.
  destruct (Z.abs z <? 0) eqn:E; [lia|]. apply BigNumber_dec_to_dec, Hz.
Qed.

Lemma signed_magnitude (b : BigNumber) :
  (if BN_isPositive b then BN_abs b else BN_negated (BN_abs b)) = b.
Proof using Type.
  destruct b as [z|]; [|reflexivity]. cbn [BN_isPositive BN_abs BN_negated].
  destruct (0 <=? z) eqn:E; f_equal; lia.
Qed.

End SolidityStructs.

(** X22. [bnFromSoliditySignedInt] undoes [bnToSoliditySignedInt]: the
    sign flag and the decimal text of the magnitude give back the number,
    negative numbers and [NaN] included. *)
Theorem bnFromSoliditySignedInt_bnToSoliditySignedInt (bn : BigNumber) :
  bnFromSoliditySignedInt (bnToSoliditySignedInt bn) = bn.
Proof.
  unfold bnFromSoliditySignedInt, bnToSoliditySignedInt.
  cbn [si_value si_isPositive].
  rewrite BigNumber_dec_toFixed0_abs. apply signed_magnitude.
Qed.

(** X23. [Balance.fromSolidity] undoes [Balance.toSolidity]: margin and
    position come back with their signs, each independently of the
    other. *)
Theorem Balance_fromSolidity_toSolidity (b : Balance) :
  Balance_fromSolidity (Balance_toSolidity b) = b.
Proof.
  destruct b as [m p]. unfold Balance_fromSolidity, Balance_toSolidity.
  cbn [marginIsPositive positionIsPositive struct_margin struct_position
       margin position].
  rewrite !BigNumber_dec_toFixed0_abs, !signed_magnitude. reflexivity.
Qed.

(** X24. [BaseValue.fromSolidity] applied to the text of [toSolidity] and
    to [isPositive] gives the value back, and the struct of
    [toSoliditySignedInt] reads back, as a signed integer, as the value
    shifted by 18 places. *)
Theorem BaseValue_fromSolidity_toSolidity (v : BaseValue) :
  BaseValue_fromSolidity (BigNumber_dec (BaseValue_toSolidity v))
    (BaseValue_isPositive v) = v
  /\ bnFromSoliditySignedInt (BaseValue_toSoliditySignedInt v) = scaled v.
Proof.
  destruct v as [s].
  unfold BaseValue_fromSolidity, bnFromSoliditySignedInt,
    BaseValue_toSoliditySignedInt, BaseValue_toSolidity, BaseValue_isPositive.
  cbn [scaled si_value si_isPositive].
  rewrite BigNumber_dec_toFixed0_abs, signed_magnitude. split; reflexivity.
Qed.

(** X25. Negating a nonzero [BaseValue] keeps the text [toSolidity] sends
    to the contract and flips the sign flag of [toSoliditySignedInt]. *)
Theorem BaseValue_negated_toSoliditySignedInt (v : BaseValue) (z : Z) :
  scaled v = BN z -> z <> 0 ->
  BaseValue_toSoliditySignedInt (BaseValue_negated v)
  = {| si_value := BaseValue_toSolidity v;
       si_isPositive := negb (BaseValue_isPositive v) |}.
Proof.
  destruct v as [s]. cbn [scaled]. intros -> Hz.
  unfold BaseValue_toSoliditySignedInt, BaseValue_toSolidity,
    BaseValue_isPositive, BaseValue_negated.
  cbn [scaled BN_negated BN_abs BN_isPositive].
  rewrite Z.abs_opp. f_equal.
  destruct (0 <=? - z) eqn:E1, (0 <=? z) eqn:E2; cbn [negb]; try reflexivity; lia.
Qed.

Lemma BaseValue_negated_toSoliditySignedInt_witness :
  BaseValue_toSoliditySignedInt (BaseValue_negated {| scaled := BN 1500 |})
  = {| si_value := "1500"; si_isPositive := false |}.
Proof.
  apply (BaseValue_negated_toSoliditySignedInt {| scaled := BN 1500 |} 1500);
    [reflexivity | lia].
Defined.
